(** * openproxy: relay and agent of a TCP tunnel, embedded in Rocq

    The development follows the layout of the repository:
    - [strconv], [strings], [fmt]: the few functions of the Go standard
      library the relay calls on its configuration ([strconv.Atoi],
      [strings.Split], the [%d] verb of [fmt.Sprintf]);
    - [protocol]: internal/protocol, the message envelope and payloads;
    - [server]: internal/server/server.go, the relay;
    - [client]: internal/client/client.go, the agent;
    - [web]: the handler of the dashboard that calls [AddTunnel].

    Connections, listeners and [*Tunnel] pointers are handles (numbers);
    what a handler does to the outside world is recorded in an event log,
    and what the outside world answers (whether a port can be bound, whether
    a write succeeds, what a read returns) is an explicit input. *)

From Stdlib Require Import ZArith Lia Ascii String.
From Stdlib Require Import DecimalString DecimalPos DecimalZ.
From stdpp Require Import gmap strings list.

Open Scope string_scope.
Open Scope Z_scope.
Open Scope list_scope.

(** ** strconv *)

Module strconv.

(** [int] is 64 bits wide on the platforms the relay is built for. *)
Definition MaxInt : Z := 2 ^ 63 - 1.
Definition MinInt : Z := - 2 ^ 63.
Definition maxUint64 : Z := 2 ^ 64 - 1.

Inductive NumError := ErrSyntax | ErrRange.

(** [ch -= '0'; if ch > 9 { syntax error }] *)
Definition digit (ch : ascii) : option Z :=
  let n := Z.of_N (N_of_ascii ch) in
  if (48 <=? n) && (n <=? 57) then Some (n - 48) else None.

(** The digit loop [n = n*10 + int(ch)] of the fast path of [Atoi]; [None]
    is the syntax error. *)
Fixpoint digits (s : string) (n : Z) : option Z :=
  match s with
  | EmptyString => Some n
  | String ch s' =>
      match digit ch with
      | Some d => digits s' (n * 10 + d)
      | None => None
      end
  end.

(** The loop of [ParseUint] in base 10 at 64 bits, [n] a [uint64].  A byte
    that is not a decimal digit is a syntax error (a letter is a digit of a
    larger base, an underscore is read in base 0 only); a digit that takes
    [n] past [maxUint64] is a range error, with [maxUint64] as the value.
    Either is returned at the byte where it is met, the rest is not read. *)
Fixpoint ParseUint_loop (s : string) (n : Z) : Z * option NumError :=
  match s with
  | EmptyString => (n, None)
  | String c s' =>
      match digit c with
      | None => (0, Some ErrSyntax)
      | Some d =>
          if maxUint64 / 10 + 1 <=? n then (maxUint64, Some ErrRange)
          else
            let n := (n * 10) mod 2 ^ 64 in
            let n1 := (n + d) mod 2 ^ 64 in
            if (n1 <? n) || (n1 >? maxUint64) then (maxUint64, Some ErrRange)
            else ParseUint_loop s' n1
      end
  end.

(** [strconv.ParseUint(s, 10, 0)] *)
Definition ParseUint (s : string) : Z * option NumError :=
  match s with
  | EmptyString => (0, Some ErrSyntax)
  | _ => ParseUint_loop s 0
  end.

(** [strconv.ParseInt(s, 10, 0)]: one leading sign is picked off, the rest
    goes to [ParseUint]; its syntax error is passed on with 0, its range
    error and a value that does not fit [int64] give the nearest bound. *)
Definition ParseInt (s : string) : Z * option NumError :=
  match s with
  | EmptyString => (0, Some ErrSyntax)
  | String c rest =>
      let neg := Ascii.eqb c "-" in
      let body :=
        if Ascii.eqb c "+" then rest
        else if Ascii.eqb c "-" then rest else s in
      match ParseUint body with
      | (_, Some ErrSyntax) => (0, Some ErrSyntax)
      | (un, _) =>
          let cutoff := 2 ^ 63 in
          if negb neg && (cutoff <=? un) then (cutoff - 1, Some ErrRange)
          else if neg && (cutoff <? un) then (- cutoff, Some ErrRange)
          else (if neg then - un else un, None)
      end
  end.

(** [strconv.Atoi]: a string of 1 to 18 bytes takes the fast path (an
    optional sign, then the digit loop, which cannot overflow); the empty
    string and a string of 19 bytes or more go through [ParseInt].  The
    relay drops the error and keeps the value. *)
Definition Atoi (s : string) : Z * option NumError :=
  let sLen := String.length s in
  if (0 <? sLen)%nat && (sLen <? 19)%nat then
    match s with
    | EmptyString => (0, Some ErrSyntax)
    | String c rest =>
        let body := if Ascii.eqb c "-" || Ascii.eqb c "+" then rest else s in
        match body with
        | EmptyString => (0, Some ErrSyntax)
        | _ =>
            match digits body 0 with
            | None => (0, Some ErrSyntax)
            | Some n => (if Ascii.eqb c "-" then - n else n, None)
            end
        end
    end
  else ParseInt s.

End strconv.

(** ** strings *)

Module strings.

(** [strings.Split(s, sep)] for a separator of one byte: the pieces of [s]
    between the occurrences of [sep]; a string without [sep] is its own
    single piece, and so is the empty string. *)
Fixpoint Split (s : string) (sep : ascii) : list string :=
  match s with
  | EmptyString => [EmptyString]
  | String c s' =>
      if Ascii.eqb c sep then EmptyString :: Split s' sep
      else match Split s' sep with
           | p :: ps => String c p :: ps
           | [] => [String c EmptyString]
           end
  end.

End strings.

(** ** fmt *)

Module fmt.

(** The [%d] verb of [fmt.Sprintf] on an integer: decimal, with a leading
    [-] for a negative number. *)
Definition Sprintd (z : Z) : string := NilZero.string_of_int (Z.to_int z).

End fmt.

(** ** internal/protocol *)

Module protocol.

Definition MessageType := string.

Definition TypeAuth : MessageType := "auth".
Definition TypeAuthResp : MessageType := "auth_resp".
Definition TypeRegTunnel : MessageType := "reg_tunnel".
Definition TypeRegResp : MessageType := "reg_resp".
Definition TypeNewConn : MessageType := "new_conn".
Definition TypeProxyData : MessageType := "proxy_data".
Definition TypePing : MessageType := "ping".
Definition TypePong : MessageType := "pong".

Record AuthRequest := { Token : string }.

Record AuthResponse := { auth_Success : bool; auth_Error : string }.

Record RegTunnelRequest :=
  { req_Name : string; req_Protocol : string; req_RemotePort : Z }.

Record RegTunnelResponse :=
  { resp_Name : string; resp_Success : bool; resp_RemotePort : Z;
    resp_Error : string }.

Record NewConnRequest := { nc_ConnID : string; nc_TunnelName : string }.

Record ProxyDataRequest := { pd_ConnID : string }.

(** The [payload interface{}] handed to [WriteMessage]. *)
Inductive Payload :=
  | PNil
  | PAuthRequest (p : AuthRequest)
  | PAuthResponse (p : AuthResponse)
  | PRegTunnelRequest (p : RegTunnelRequest)
  | PRegTunnelResponse (p : RegTunnelResponse)
  | PNewConnRequest (p : NewConnRequest)
  | PProxyDataRequest (p : ProxyDataRequest).

(** A decoded envelope: the payload stays raw ([json.RawMessage]) until the
    handler of its type unmarshals it. *)
Record Message (Raw : Type) := { Type_ : MessageType; Payload_ : Raw }.
Arguments Type_ {Raw} _.
Arguments Payload_ {Raw} _.

(** [json.Unmarshal] of a raw payload into each of the request and response
    structs; [None] is its error.  The JSON codec is the standard library's,
    so the handlers are stated over any codec. *)
Class Codec (Raw : Type) := {
  UnmarshalAuthRequest : Raw -> option AuthRequest;
  UnmarshalAuthResponse : Raw -> option AuthResponse;
  UnmarshalRegTunnelRequest : Raw -> option RegTunnelRequest;
  UnmarshalRegTunnelResponse : Raw -> option RegTunnelResponse;
  UnmarshalNewConnRequest : Raw -> option NewConnRequest;
  UnmarshalProxyDataRequest : Raw -> option ProxyDataRequest
}.

(** What [decoder.Decode(&msg)] returns: a message, the clean end of the
    stream ([io.EOF]) or another error. *)
Inductive Decoded (Raw : Type) :=
  | DecMsg (m : Message Raw)
  | DecEOF
  | DecErr.
Arguments DecMsg {Raw} _.
Arguments DecEOF {Raw}.
Arguments DecErr {Raw}.

End protocol.

(** ** errors *)

Module errors.

(** The [error] values the handlers return: the clean end of a stream, a
    failed read or write, a failed [json.Unmarshal], or [fmt.Errorf]. *)
Inductive error :=
  | EOF
  | ErrIO
  | ErrJSON
  | Errorf (msg : string).

End errors.

(** ** internal/config *)

Module config.

Record ServerConfig :=
  { ControlPort : Z; Token : string; PortRange : string }.

Record Tunnel :=
  { Name : string; Protocol : string; LocalAddr : string; RemotePort : Z }.

Record ClientConfig :=
  { ServerAddr : string; cli_Token : string; Tunnels : list Tunnel }.

End config.

(** ** internal/server *)

Module server.
Import protocol.

(** Handles of [net.Conn], [net.Listener] and [*Tunnel] values. *)
Definition Conn := nat.
Definition Listener := nat.
Definition TunnelPtr := nat.

Record Tunnel := {
  Name : string;
  Protocol : string;
  RemotePort : Z;
  Listener_ : Listener;
  ControlConn : Conn;
  ActiveConns : Z
}.

Record PendingConn := { Conn_ : Conn; Tunnel_ : TunnelPtr }.

(** [time.Duration] counts nanoseconds. *)
Definition Second : Z := 1000000000.

(** What the relay does to the outside world, in the order it does it. *)
Inductive Event :=
  | EvWrite (c : Conn) (ty : MessageType) (p : Payload) (ok : bool)
  | EvListen (port : Z) (ln : option Listener)
  | EvClose (c : Conn)
  | EvListenerClose (ln : Listener)
  | EvGoAccept (t : TunnelPtr)
  | EvBridge (publicConn clientConn : Conn)
  | EvAfterFunc (d : Z) (connID : string).

(** The [Server] struct with the objects it points to: [tunnels] is
    [tunnelMgr.tunnels], [heap] holds the [Tunnel] values behind the
    pointers, [listeners] every listener made so far with its port and
    whether it is still open. *)
Record Server := {
  Config : config.ServerConfig;
  tunnels : gmap string TunnelPtr;
  pendingConns : gmap string PendingConn;
  heap : gmap TunnelPtr Tunnel;
  listeners : gmap Listener (Z * bool);
  events : list Event
}.

(** The answers of the operating system, given what has happened so far:
    the error text of [net.Listen] on a port ([None]: the port was bound),
    and whether a write on a connection succeeds. *)
Record Env := {
  listen_err : list Event -> Z -> option string;
  write_ok : list Event -> Conn -> bool
}.

Definition NewServer (cfg : config.ServerConfig) : Server :=
  {| Config := cfg; tunnels := ∅; pendingConns := ∅; heap := ∅;
     listeners := ∅; events := [] |}.

Definition emit (e : Event) (s : Server) : Server :=
  {| Config := Config s; tunnels := tunnels s;
     pendingConns := pendingConns s; heap := heap s;
     listeners := listeners s; events := events s ++ [e] |}.

Definition set_pendingConns (m : gmap string PendingConn) (s : Server)
  : Server :=
  {| Config := Config s; tunnels := tunnels s; pendingConns := m;
     heap := heap s; listeners := listeners s; events := events s |}.

Definition set_tunnels (m : gmap string TunnelPtr) (s : Server) : Server :=
  {| Config := Config s; tunnels := m; pendingConns := pendingConns s;
     heap := heap s; listeners := listeners s; events := events s |}.

Definition set_heap (h : gmap TunnelPtr Tunnel) (s : Server) : Server :=
  {| Config := Config s; tunnels := tunnels s;
     pendingConns := pendingConns s; heap := h; listeners := listeners s;
     events := events s |}.

Definition set_listeners (l : gmap Listener (Z * bool)) (s : Server)
  : Server :=
  {| Config := Config s; tunnels := tunnels s;
     pendingConns := pendingConns s; heap := heap s; listeners := l;
     events := events s |}.

(** 64-bit two's complement wrap-around of [int64] arithmetic. *)
Definition wrap64 (z : Z) : Z := (z + 2 ^ 63) mod 2 ^ 64 - 2 ^ 63.

Definition addActive (delta : Z) (t : Tunnel) : Tunnel :=
  {| Name := Name t; Protocol := Protocol t; RemotePort := RemotePort t;
     Listener_ := Listener_ t; ControlConn := ControlConn t;
     ActiveConns := wrap64 (ActiveConns t + delta) |}.

(** [atomic.AddInt64(&t.ActiveConns, delta)] *)
Definition AddInt64 (t : TunnelPtr) (delta : Z) (s : Server) : Server :=
  set_heap (alter (addActive delta) t (heap s)) s.

(** [protocol.WriteMessage(conn, ty, payload)]: the write is logged with its
    outcome, which is also returned ([true]: no error). *)
Definition WriteMessage (env : Env) (c : Conn) (ty : MessageType)
    (p : Payload) (s : Server) : bool * Server :=
  let ok := write_ok env (events s) c in
  (ok, emit (EvWrite c ty p ok) s).

(** The port-range test at the head of [handleRegisterTunnel]: [true] when
    the request is refused as out of range. *)
Definition outOfRange (PortRange : string) (port : Z) : bool :=
  if decide (PortRange <> EmptyString) then
    let parts := strings.Split PortRange "-" in
    if decide (length parts = 2%nat) then
      let min := fst (strconv.Atoi (nth 0 parts EmptyString)) in
      let max := fst (strconv.Atoi (nth 1 parts EmptyString)) in
      (port <? min) || (port >? max)
    else false
  else false.

Definition handleRegisterTunnel (env : Env) (controlConn : Conn)
    (req : RegTunnelRequest) (s : Server) : Server :=
  if outOfRange (config.PortRange (Config s)) (req_RemotePort req) then
    let resp :=
      {| resp_Name := req_Name req; resp_Success := false;
         resp_RemotePort := 0;
         resp_Error :=
           "Port " +:+ fmt.Sprintd (req_RemotePort req) +:+
           " is out of allowed range " +:+ config.PortRange (Config s) |} in
    snd (WriteMessage env controlConn TypeRegResp (PRegTunnelResponse resp) s)
  else
    match listen_err env (events s) (req_RemotePort req) with
    | Some err =>
        let s := emit (EvListen (req_RemotePort req) None) s in
        let resp :=
          {| resp_Name := req_Name req; resp_Success := false;
             resp_RemotePort := req_RemotePort req; resp_Error := err |} in
        snd (WriteMessage env controlConn TypeRegResp
               (PRegTunnelResponse resp) s)
    | None =>
        let ln := fresh (dom (listeners s)) in
        let s := emit (EvListen (req_RemotePort req) (Some ln)) s in
        let s :=
          set_listeners (<[ln := (req_RemotePort req, true)]> (listeners s))
            s in
        let resp :=
          {| resp_Name := req_Name req; resp_Success := true;
             resp_RemotePort := req_RemotePort req;
             resp_Error := EmptyString |} in
        let t := fresh (dom (heap s)) in
        let s :=
          set_heap
            (<[t := {| Name := req_Name req; Protocol := req_Protocol req;
                       RemotePort := req_RemotePort req; Listener_ := ln;
                       ControlConn := controlConn; ActiveConns := 0 |}]>
               (heap s)) s in
        let s := set_tunnels (<[req_Name req := t]> (tunnels s)) s in
        let s :=
          snd (WriteMessage env controlConn TypeRegResp
                 (PRegTunnelResponse resp) s) in
        emit (EvGoAccept t) s
    end.

(** The zero [Tunnel], read through a pointer the heap does not hold (no
    run of the relay does that: pointers come from [handleRegisterTunnel]). *)
Definition zeroTunnel : Tunnel :=
  {| Name := EmptyString; Protocol := EmptyString; RemotePort := 0;
     Listener_ := 0%nat; ControlConn := 0%nat; ActiveConns := 0 |}.

Definition deref (s : Server) (t : TunnelPtr) : Tunnel :=
  default zeroTunnel (heap s !! t).

(** The function handed to [time.AfterFunc] in [handlePublicConnection]; it
    runs with [pendingMu] held. *)
Definition expire (connID : string) (s : Server) : Server :=
  match pendingConns s !! connID with
  | Some pc =>
      let s := emit (EvClose (Conn_ pc)) s in
      let s := set_pendingConns (delete connID (pendingConns s)) s in
      AddInt64 (Tunnel_ pc) (-1) s
  | None => s
  end.

(** [handlePublicConnection]; [now] is the reading [time.Now().UnixNano()]. *)
Definition handlePublicConnection (env : Env) (t : TunnelPtr)
    (publicConn : Conn) (now : Z) (s : Server) : Server :=
  let s := AddInt64 t 1 s in
  let connID := fmt.Sprintd now in
  let s :=
    set_pendingConns
      (<[connID := {| Conn_ := publicConn; Tunnel_ := t |}]> (pendingConns s))
      s in
  let req := {| nc_ConnID := connID; nc_TunnelName := Name (deref s t) |} in
  let '(ok, s) :=
    WriteMessage env (ControlConn (deref s t)) TypeNewConn
      (PNewConnRequest req) s in
  if ok then emit (EvAfterFunc (10 * Second) connID) s
  else
    let s := set_pendingConns (delete connID (pendingConns s)) s in
    let s := emit (EvClose publicConn) s in
    AddInt64 t (-1) s.

(** [acceptTunnelConnections]: every accepted connection is handed to
    [handlePublicConnection] with the clock reading it sees; then [Accept]
    fails and the deferred [t.Listener.Close()] runs.  The handlers are run
    in the order of the accepts. *)
Fixpoint acceptTunnelConnections (env : Env) (t : TunnelPtr)
    (accepted : list (Conn * Z)) (s : Server) : Server :=
  match accepted with
  | [] =>
      let ln := Listener_ (deref s t) in
      let s := emit (EvListenerClose ln) s in
      set_listeners (alter (fun pb => (fst pb, false)) ln (listeners s)) s
  | (publicConn, now) :: rest =>
      acceptTunnelConnections env t rest
        (handlePublicConnection env t publicConn now s)
  end.

(** [handleProxyData]: the bridge runs to its end, then the deferred
    function closes the public connection and decrements the counter. *)
Definition handleProxyData (clientConn : Conn) (req : ProxyDataRequest)
    (s : Server) : Server :=
  match pendingConns s !! pd_ConnID req with
  | Some pc =>
      let s := set_pendingConns (delete (pd_ConnID req) (pendingConns s)) s in
      let s := emit (EvBridge (Conn_ pc) clientConn) s in
      let s := emit (EvClose (Conn_ pc)) s in
      AddInt64 (Tunnel_ pc) (-1) s
  | None => s
  end.

Section WithCodec.
Context {Raw : Type} `{Codec Raw}.

(** [handshake]: [first] is what the one [Decode] returns. *)
Definition handshake (env : Env) (conn : Conn) (first : Decoded Raw)
    (s : Server) : option errors.error * Server :=
  match first with
  | DecEOF => (Some errors.EOF, s)
  | DecErr => (Some errors.ErrJSON, s)
  | DecMsg msg =>
      if decide (Type_ msg <> TypeAuth) then
        (Some (errors.Errorf ("unexpected message type: " +:+ Type_ msg)), s)
      else
        match UnmarshalAuthRequest (Payload_ msg) with
        | None => (Some errors.ErrJSON, s)
        | Some req =>
            if decide (Token req <> config.Token (Config s)) then
              let s :=
                snd (WriteMessage env conn TypeAuthResp
                       (PAuthResponse
                          {| auth_Success := false;
                             auth_Error := "Invalid Token" |}) s) in
              (Some (errors.Errorf "invalid token"), s)
            else
              let '(ok, s) :=
                WriteMessage env conn TypeAuthResp
                  (PAuthResponse
                     {| auth_Success := true; auth_Error := EmptyString |})
                  s in
              (if ok then None else Some errors.ErrIO, s)
        end
  end.

(** The command loop of [handleControlConnection]; [inbox] is what the
    successive [Decode]s return, and its end is the end of the stream. *)
Fixpoint controlLoop (env : Env) (conn : Conn) (inbox : list (Decoded Raw))
    (s : Server) : Server :=
  match inbox with
  | DecMsg msg :: rest =>
      if decide (Type_ msg = TypeRegTunnel) then
        match UnmarshalRegTunnelRequest (Payload_ msg) with
        | None => controlLoop env conn rest s
        | Some req =>
            controlLoop env conn rest (handleRegisterTunnel env conn req s)
        end
      else if decide (Type_ msg = TypePing) then
        controlLoop env conn rest
          (snd (WriteMessage env conn TypePong PNil s))
      else if decide (Type_ msg = TypeProxyData) then
        match UnmarshalProxyDataRequest (Payload_ msg) with
        | None => s
        | Some req => handleProxyData conn req s
        end
      else controlLoop env conn rest s
  | _ => s
  end.

(** [handleControlConnection], with its deferred [conn.Close()]. *)
Definition handleControlConnection (env : Env) (conn : Conn)
    (inbox : list (Decoded Raw)) (s : Server) : Server :=
  let '(err, s) := handshake env conn (hd DecEOF inbox) s in
  match err with
  | Some _ => emit (EvClose conn) s
  | None => emit (EvClose conn) (controlLoop env conn (tl inbox) s)
  end.

End WithCodec.

End server.

(** ** The claim and the expiry of one pending connection, run concurrently

    [handleProxyData] for a connection id and the function armed by
    [time.AfterFunc] for the same id run as two goroutines.  Each is cut at
    its statements; [pendingMu] is the mutex both take. *)

Module race.
Import protocol server.

Inductive Tid := TClaim | TExpire.

(** The program points of [handleProxyData], with the locals [pc, ok] as
    an option once they are assigned. *)
Inductive ClaimPc :=
  | CLock                                (* s.pendingMu.Lock() *)
  | CLookup                              (* pc, ok := s.pendingConns[id] *)
  | CDelete (pc : option PendingConn)    (* if ok { delete(...) } *)
  | CUnlock (pc : option PendingConn)    (* s.pendingMu.Unlock() *)
  | CCheck (pc : option PendingConn)     (* if !ok { return } *)
  | CBridge (pc : PendingConn)           (* the two io.Copy *)
  | CClose (pc : PendingConn)            (* deferred publicConn.Close() *)
  | CDecr (pc : PendingConn)             (* deferred atomic.AddInt64 *)
  | CDone.

(** The program points of the function handed to [time.AfterFunc]. *)
Inductive ExpirePc :=
  | ELock                                (* s.pendingMu.Lock() *)
  | ELookup                              (* if pc, ok := ...; ok *)
  | EClose (pc : PendingConn)            (* pc.Conn.Close() *)
  | EDelete (pc : PendingConn)           (* delete(s.pendingConns, connID) *)
  | EDecr (pc : PendingConn)             (* atomic.AddInt64 *)
  | EUnlock                              (* s.pendingMu.Unlock() *)
  | EDone.

(** The cleanup actions, logged with the goroutine that performs them. *)
Inductive Action :=
  | ADelete (id : string)
  | ABridge (publicConn clientConn : Conn)
  | AClose (c : Conn)
  | ADecr (t : TunnelPtr).

Definition apply (a : Action) (s : Server) : Server :=
  match a with
  | ADelete id => set_pendingConns (delete id (pendingConns s)) s
  | ABridge pub cli => emit (EvBridge pub cli) s
  | AClose c => emit (EvClose c) s
  | ADecr t => AddInt64 t (-1) s
  end.

Record Racing := {
  srv : Server;
  pendingMu : option Tid;
  claim : ClaimPc;
  expiry : ExpirePc;
  trace : list (Tid * Action)
}.

Definition start (s : Server) : Racing :=
  {| srv := s; pendingMu := None; claim := CLock; expiry := ELock;
     trace := [] |}.

Definition set_mu (m : option Tid) (r : Racing) : Racing :=
  {| srv := srv r; pendingMu := m; claim := claim r; expiry := expiry r;
     trace := trace r |}.

Definition set_claim (p : ClaimPc) (r : Racing) : Racing :=
  {| srv := srv r; pendingMu := pendingMu r; claim := p; expiry := expiry r;
     trace := trace r |}.

Definition set_expiry (p : ExpirePc) (r : Racing) : Racing :=
  {| srv := srv r; pendingMu := pendingMu r; claim := claim r; expiry := p;
     trace := trace r |}.

Definition act (t : Tid) (a : Action) (r : Racing) : Racing :=
  {| srv := apply a (srv r); pendingMu := pendingMu r; claim := claim r;
     expiry := expiry r; trace := trace r ++ [(t, a)] |}.

(** One statement of [handleProxyData(clientConn, {ConnID: id})]; [None]
    when the goroutine waits for the mutex or has returned. *)
Definition stepClaim (clientConn : Conn) (id : string) (r : Racing)
  : option Racing :=
  match claim r with
  | CLock =>
      match pendingMu r with
      | None => Some (set_claim CLookup (set_mu (Some TClaim) r))
      | Some _ => None
      end
  | CLookup => Some (set_claim (CDelete (pendingConns (srv r) !! id)) r)
  | CDelete (Some pc) =>
      Some (set_claim (CUnlock (Some pc)) (act TClaim (ADelete id) r))
  | CDelete None => Some (set_claim (CUnlock None) r)
  | CUnlock o => Some (set_claim (CCheck o) (set_mu None r))
  | CCheck None => Some (set_claim CDone r)
  | CCheck (Some pc) => Some (set_claim (CBridge pc) r)
  | CBridge pc =>
      Some (set_claim (CClose pc)
              (act TClaim (ABridge (Conn_ pc) clientConn) r))
  | CClose pc =>
      Some (set_claim (CDecr pc) (act TClaim (AClose (Conn_ pc)) r))
  | CDecr pc => Some (set_claim CDone (act TClaim (ADecr (Tunnel_ pc)) r))
  | CDone => None
  end.

(** One statement of the expiry function for [id]. *)
Definition stepExpire (id : string) (r : Racing) : option Racing :=
  match expiry r with
  | ELock =>
      match pendingMu r with
      | None => Some (set_expiry ELookup (set_mu (Some TExpire) r))
      | Some _ => None
      end
  | ELookup =>
      match pendingConns (srv r) !! id with
      | Some pc => Some (set_expiry (EClose pc) r)
      | None => Some (set_expiry EUnlock r)
      end
  | EClose pc =>
      Some (set_expiry (EDelete pc) (act TExpire (AClose (Conn_ pc)) r))
  | EDelete pc => Some (set_expiry (EDecr pc) (act TExpire (ADelete id) r))
  | EDecr pc =>
      Some (set_expiry EUnlock (act TExpire (ADecr (Tunnel_ pc)) r))
  | EUnlock => Some (set_expiry EDone (set_mu None r))
  | EDone => None
  end.

Definition step (clientConn : Conn) (id : string) (t : Tid) (r : Racing)
  : option Racing :=
  match t with
  | TClaim => stepClaim clientConn id r
  | TExpire => stepExpire id r
  end.

(** A schedule names the goroutine that runs next; a goroutine that cannot
    move leaves the state as it is. *)
Fixpoint run (clientConn : Conn) (id : string) (sched : list Tid)
    (r : Racing) : Racing :=
  match sched with
  | [] => r
  | t :: rest =>
      run clientConn id rest (default r (step clientConn id t r))
  end.

(** How often a goroutine has performed an action. *)
Definition isClose (c : Conn) (a : Action) : bool :=
  match a with AClose c' => bool_decide (c' = c) | _ => false end.

Definition isDecr (t : TunnelPtr) (a : Action) : bool :=
  match a with ADecr t' => bool_decide (t' = t) | _ => false end.

Definition isDelete (id : string) (a : Action) : bool :=
  match a with ADelete id' => bool_decide (id' = id) | _ => false end.

Definition sameTid (a b : Tid) : bool :=
  match a, b with
  | TClaim, TClaim | TExpire, TExpire => true
  | _, _ => false
  end.

Definition countBy (t : Tid) (f : Action -> bool)
    (tr : list (Tid * Action)) : nat :=
  length (List.filter (fun x => sameTid (fst x) t && f (snd x)) tr).

End race.

(** ** internal/client *)

Module client.
Import protocol.

Definition Conn := nat.

Record Client := {
  Config : config.ClientConfig;
  controlConn : option Conn;
  connected : bool
}.

(** What the agent does to the outside world, in the order it does it. *)
Inductive Event :=
  | EvWrite (c : Conn) (ty : MessageType) (p : Payload) (ok : bool)
  | EvRead (c : Conn)
  | EvClose (c : Conn)
  | EvGoHeartbeat (c : Conn) (period : Z)
  | EvGoNewConn (req : NewConnRequest).

(** The control connection as the agent meets it: [inbox] is what the
    successive [Decode]s return (past its end the stream is at its end),
    [outcomes] whether the successive writes succeed (past its end the
    connection is gone and they fail). *)
Record Wire (Raw : Type) := {
  inbox : list (Decoded Raw);
  outcomes : list bool;
  events : list Event
}.
Arguments inbox {Raw} _.
Arguments outcomes {Raw} _.
Arguments events {Raw} _.

(** [time.Duration] counts nanoseconds. *)
Definition Second : Z := 1000000000.

Section WithCodec.
Context {Raw : Type} `{Codec Raw}.

(** [protocol.WriteMessage(conn, ty, payload)] *)
Definition WriteMessage (conn : Conn) (ty : MessageType) (p : Payload)
    (w : Wire Raw) : bool * Wire Raw :=
  let ok := hd false (outcomes w) in
  (ok, {| inbox := inbox w; outcomes := tl (outcomes w);
          events := events w ++ [EvWrite conn ty p ok] |}).

(** [decoder.Decode(&msg)] on the connection. *)
Definition Decode (conn : Conn) (w : Wire Raw) : Decoded Raw * Wire Raw :=
  (hd DecEOF (inbox w),
   {| inbox := tl (inbox w); outcomes := outcomes w;
      events := events w ++ [EvRead conn] |}).

Definition emit (e : Event) (w : Wire Raw) : Wire Raw :=
  {| inbox := inbox w; outcomes := outcomes w; events := events w ++ [e] |}.

Definition authenticate (token : string) (conn : Conn) (w : Wire Raw)
  : option errors.error * Wire Raw :=
  let '(ok, w) :=
    WriteMessage conn TypeAuth (PAuthRequest {| Token := token |}) w in
  if negb ok then (Some errors.ErrIO, w)
  else
    let '(d, w) := Decode conn w in
    match d with
    | DecEOF => (Some errors.EOF, w)
    | DecErr => (Some errors.ErrJSON, w)
    | DecMsg msg =>
        if decide (Type_ msg <> TypeAuthResp) then
          (Some (errors.Errorf
                   ("unexpected auth response type: " +:+ Type_ msg)), w)
        else
          match UnmarshalAuthResponse (Payload_ msg) with
          | None => (Some errors.ErrJSON, w)
          | Some resp =>
              if negb (auth_Success resp) then
                (Some (errors.Errorf ("auth failed: " +:+ auth_Error resp)),
                 w)
              else (None, w)
          end
    end.

Definition regRequest (t : config.Tunnel) : RegTunnelRequest :=
  {| req_Name := config.Name t; req_Protocol := config.Protocol t;
     req_RemotePort := config.RemotePort t |}.

Definition registerTunnel (conn : Conn) (t : config.Tunnel) (w : Wire Raw)
  : option errors.error * Wire Raw :=
  let '(ok, w) :=
    WriteMessage conn TypeRegTunnel (PRegTunnelRequest (regRequest t)) w in
  if negb ok then (Some errors.ErrIO, w)
  else
    let '(d, w) := Decode conn w in
    match d with
    | DecEOF => (Some errors.EOF, w)
    | DecErr => (Some errors.ErrJSON, w)
    | DecMsg msg =>
        if decide (Type_ msg <> TypeRegResp) then
          (Some (errors.Errorf
                   ("unexpected reg response type: " +:+ Type_ msg)), w)
        else
          match UnmarshalRegTunnelResponse (Payload_ msg) with
          | None => (Some errors.ErrJSON, w)
          | Some resp =>
              if negb (resp_Success resp) then
                (Some (errors.Errorf
                         ("registration failed: " +:+ resp_Error resp)), w)
              else (None, w)
          end
    end.

(** The loop [for _, t := range c.Config.Tunnels] of [Start]: an error of
    [registerTunnel] is logged and the loop continues.  The tunnels whose
    registration returned no error are collected for the statements below;
    the agent itself keeps no such list. *)
Fixpoint registerTunnels (conn : Conn) (ts : list config.Tunnel)
    (w : Wire Raw) : list config.Tunnel * Wire Raw :=
  match ts with
  | [] => ([], w)
  | t :: rest =>
      let '(err, w) := registerTunnel conn t w in
      let '(done, w) := registerTunnels conn rest w in
      (match err with None => t :: done | Some _ => done end, w)
  end.

(** The agent between the registrations and the return of [Start]: the
    read loop of [Start] and the [heartbeat] goroutine share the client and
    the connection. *)
Record Session := {
  cli : Client;
  conn : Conn;
  wire : Wire Raw;
  heartbeatRunning : bool;
  startRunning : bool;
  result : option errors.error
}.

(** [Start] up to the read loop; [dial] is the result of [net.Dial].  An
    error of the dial or of the authentication makes [Start] return. *)
Definition Start (c : Client) (dial : option Conn) (w : Wire Raw)
  : errors.error * Client * Wire Raw + Session :=
  match dial with
  | None => inl (errors.ErrIO, c, w)
  | Some conn =>
      let c1 :=
        {| Config := Config c; controlConn := Some conn;
           connected := true |} in
      let '(err, w) := authenticate (config.cli_Token (Config c)) conn w in
      match err with
      | Some e =>
          inl (e,
               {| Config := Config c; controlConn := None;
                  connected := false |},
               emit (EvClose conn) w)
      | None =>
          let '(_, w) := registerTunnels conn (config.Tunnels (Config c)) w in
          let w := emit (EvGoHeartbeat conn (10 * Second)) w in
          inr {| cli := c1; conn := conn; wire := w;
                 heartbeatRunning := true; startRunning := true;
                 result := None |}
      end
  end.

(** One turn of the read loop of [Start].  A decode error ends [Start]:
    the deferred function clears the client and closes the connection. *)
Definition readStep (s : Session) : Session :=
  if startRunning s then
    let '(d, w) := Decode (conn s) (wire s) in
    let stop (e : errors.error) :=
      {| cli := {| Config := Config (cli s); controlConn := None;
                   connected := false |};
         conn := conn s; wire := emit (EvClose (conn s)) w;
         heartbeatRunning := heartbeatRunning s; startRunning := false;
         result := Some e |} in
    let continue (w : Wire Raw) :=
      {| cli := cli s; conn := conn s; wire := w;
         heartbeatRunning := heartbeatRunning s;
         startRunning := true; result := None |} in
    match d with
    | DecEOF => stop errors.EOF
    | DecErr => stop errors.ErrJSON
    | DecMsg msg =>
        if decide (Type_ msg = TypeNewConn) then
          match UnmarshalNewConnRequest (Payload_ msg) with
          | None => continue w
          | Some req => continue (emit (EvGoNewConn req) w)
          end
        else continue w
    end
  else s.

(** One tick of the ticker in [heartbeat]. *)
Definition heartbeatTick (s : Session) : Session :=
  if heartbeatRunning s then
    match controlConn (cli s) with
    | None =>
        {| cli := cli s; conn := conn s; wire := wire s;
           heartbeatRunning := false; startRunning := startRunning s;
           result := result s |}
    | Some currentConn =>
        let '(ok, w) := WriteMessage currentConn TypePing PNil (wire s) in
        {| cli := cli s; conn := conn s; wire := w;
           heartbeatRunning := ok; startRunning := startRunning s;
           result := result s |}
    end
  else s.

Inductive Input := Tick | Readable.

Definition sessionStep (i : Input) (s : Session) : Session :=
  match i with
  | Tick => heartbeatTick s
  | Readable => readStep s
  end.

Definition sessionRun (ins : list Input) (s : Session) : Session :=
  fold_left (fun s i => sessionStep i s) ins s.

(** [AddTunnel]; it leaves the client as it is (the tunnel list is
    appended to by the dashboard handler, see [web.handleTunnelsPost]). *)
Definition AddTunnel (c : Client) (t : config.Tunnel) (w : Wire Raw)
  : option errors.error * Wire Raw :=
  if existsb (fun existing => String.eqb (config.Name existing) (config.Name t))
       (config.Tunnels (Config c))
  then
    (Some (errors.Errorf
             ("tunnel name " +:+ config.Name t +:+ " already exists")), w)
  else
    match connected c, controlConn c with
    | true, Some conn => registerTunnel conn t w
    | _, _ => (None, w)
    end.

End WithCodec.

End client.

(** ** internal/web *)

Module web.
Import protocol client.

Section WithCodec.
Context {Raw : Type} `{Codec Raw}.

(** The [POST] branch of [handleTunnels] on an agent: the HTTP status, and
    the tunnel list appended to only after [AddTunnel] returned no error. *)
Definition handleTunnelsPost (c : Client) (t : config.Tunnel) (w : Wire Raw)
  : Z * Client * Wire Raw :=
  let '(err, w) := AddTunnel c t w in
  match err with
  | Some _ => (500, c, w)
  | None =>
      (200,
       {| Config :=
            {| config.ServerAddr := config.ServerAddr (Config c);
               config.cli_Token := config.cli_Token (Config c);
               config.Tunnels := config.Tunnels (Config c) ++ [t] |};
          controlConn := controlConn c; connected := connected c |},
       w)
  end.

End WithCodec.

End web.

(** ** Vocabulary of the statements *)

Module props.
Import protocol server.

(** The configured range as the configuration document writes it: nothing,
    or [min-max] with both bounds in decimal. *)
Definition renderRange (r : option (Z * Z)) : string :=
  match r with
  | None => EmptyString
  | Some (lo, hi) => fmt.Sprintd lo +:+ "-" +:+ fmt.Sprintd hi
  end.

(** A port is allowed when no range is configured or when it lies within
    the inclusive bounds. *)
Definition inRange (r : option (Z * Z)) (port : Z) : bool :=
  match r with
  | None => true
  | Some (lo, hi) => (lo <=? port) && (port <=? hi)
  end.

(** Bounds are port numbers an [int] holds. *)
Definition validRange (r : option (Z * Z)) : Prop :=
  match r with
  | None => True
  | Some (lo, hi) => 0 <= lo <= strconv.MaxInt /\ 0 <= hi <= strconv.MaxInt
  end.

(** The request was refused as out of range: the one thing that happened
    is the failure response; no listener, no tunnel. *)
Definition refused (env : Env) (conn : Conn) (req : RegTunnelRequest)
    (s s' : Server) : Prop :=
  tunnels s' = tunnels s /\ heap s' = heap s /\
  listeners s' = listeners s /\ pendingConns s' = pendingConns s /\
  events s' =
    events s ++
    [EvWrite conn TypeRegResp
       (PRegTunnelResponse
          {| resp_Name := req_Name req; resp_Success := false;
             resp_RemotePort := 0;
             resp_Error :=
               "Port " +:+ fmt.Sprintd (req_RemotePort req) +:+
               " is out of allowed range " +:+
               config.PortRange (Config s) |})
       (write_ok env (events s) conn)].

(** The request went on to [net.Listen] on its port. *)
Definition bindAttempted (port : Z) (s s' : Server) : Prop :=
  exists ln rest, events s' = events s ++ EvListen port ln :: rest.

(** Nothing but the event log differs between two states of the relay. *)
Definition sameRegistries (s s' : Server) : Prop :=
  Config s' = Config s /\ tunnels s' = tunnels s /\ heap s' = heap s /\
  listeners s' = listeners s /\ pendingConns s' = pendingConns s.

(** The events a handler added to the log. *)
Definition newEvents (s s' : Server) : list Event :=
  drop (length (events s)) (events s').

(** The failure response of the handshake. *)
Definition authFailure : Payload :=
  PAuthResponse {| auth_Success := false; auth_Error := "Invalid Token" |}.

Definition isDigit (c : ascii) : bool :=
  let n := Z.of_N (N_of_ascii c) in (48 <=? n) && (n <=? 57).

Fixpoint allDigits (s : string) : bool :=
  match s with
  | EmptyString => true
  | String c s' => isDigit c && allDigits s'
  end.

Definition nonEmpty (s : string) : bool :=
  match s with EmptyString => false | _ => true end.

(** A decimal number: an optional sign and at least one digit. *)
Definition isNumeric (s : string) : bool :=
  match s with
  | EmptyString => false
  | String c rest =>
      if Ascii.eqb c "-" || Ascii.eqb c "+"
      then nonEmpty rest && allDigits rest
      else allDigits s
  end.

(** The value of the longest run of decimal digits a string starts with,
    [n] being the value of the digits before it. *)
Fixpoint leading (s : string) (n : Z) : Z :=
  match s with
  | EmptyString => n
  | String c s' =>
      if isDigit c then leading s' (n * 10 + (Z.of_N (N_of_ascii c) - 48))
      else n
  end.

(** What follows the sign, when there is one. *)
Definition unsigned (s : string) : string :=
  match s with
  | EmptyString => s
  | String c rest => if Ascii.eqb c "-" || Ascii.eqb c "+" then rest else s
  end.

Definition negative (s : string) : bool :=
  match s with
  | EmptyString => false
  | String c _ => Ascii.eqb c "-"
  end.

(** The digits a part starts with, after its sign, make a number of at most
    64 bits. *)
Definition fits64 (s : string) : bool :=
  leading (unsigned s) 0 <=? strconv.maxUint64.

Fixpoint noDash (s : string) : bool :=
  match s with
  | EmptyString => true
  | String c s' => negb (Ascii.eqb c "-") && noDash s'
  end.

(** The register-tunnel requests written, in order. *)
Definition regWrites (evs : list client.Event) : list RegTunnelRequest :=
  flat_map
    (fun e =>
       match e with
       | client.EvWrite _ _ (PRegTunnelRequest r) _ => [r]
       | _ => []
       end) evs.

(** The events of one registration: the request, and the read of the
    response when the request went out. *)
Definition exchange (conn : client.Conn) (t : config.Tunnel)
    (seg : list client.Event) : Prop :=
  seg =
    [client.EvWrite conn TypeRegTunnel
       (PRegTunnelRequest (client.regRequest t)) false]
  \/ seg =
    [client.EvWrite conn TypeRegTunnel
       (PRegTunnelRequest (client.regRequest t)) true;
     client.EvRead conn].

(** The live registration went through: the request went out and the
    answer is a register-tunnel response that reports success. *)
Definition registrationSucceeds {Raw : Type} `{Codec Raw}
    (w : client.Wire Raw) : Prop :=
  hd false (client.outcomes w) = true /\
  exists msg resp,
    hd DecEOF (client.inbox w) = DecMsg msg /\
    Type_ msg = TypeRegResp /\
    UnmarshalRegTunnelResponse (Payload_ msg) = Some resp /\
    resp_Success resp = true.

End props.

(** ** Concrete inputs *)

Module examples.
Import protocol.

(** A codec whose raw payloads are the structs themselves. *)
#[export] Instance typedCodec : Codec Payload := {|
  UnmarshalAuthRequest p :=
    match p with PAuthRequest r => Some r | _ => None end;
  UnmarshalAuthResponse p :=
    match p with PAuthResponse r => Some r | _ => None end;
  UnmarshalRegTunnelRequest p :=
    match p with PRegTunnelRequest r => Some r | _ => None end;
  UnmarshalRegTunnelResponse p :=
    match p with PRegTunnelResponse r => Some r | _ => None end;
  UnmarshalNewConnRequest p :=
    match p with PNewConnRequest r => Some r | _ => None end;
  UnmarshalProxyDataRequest p :=
    match p with PProxyDataRequest r => Some r | _ => None end
|}.

(** Every port can be bound and every write succeeds. *)
Definition okEnv : server.Env :=
  {| server.listen_err := fun _ _ => None;
     server.write_ok := fun _ _ => true |}.

(** Every port can be bound and every write fails. *)
Definition deadEnv : server.Env :=
  {| server.listen_err := fun _ _ => None;
     server.write_ok := fun _ _ => false |}.

Definition relayConfig (range : string) : config.ServerConfig :=
  {| config.ControlPort := 7000; config.Token := "T";
     config.PortRange := range |}.

Definition webRequest : RegTunnelRequest :=
  {| req_Name := "web"; req_Protocol := "tcp"; req_RemotePort := 10080 |}.

(** A relay with the tunnel [web] registered on port 10080 by control
    connection 1. *)
Definition relayWithWeb : server.Server :=
  server.handleRegisterTunnel okEnv 1%nat webRequest
    (server.NewServer (relayConfig "10000-10100")).

Definition webTunnel : config.Tunnel :=
  {| config.Name := "web"; config.Protocol := "tcp";
     config.LocalAddr := "127.0.0.1:80"; config.RemotePort := 10080 |}.

Definition sshTunnel : config.Tunnel :=
  {| config.Name := "ssh"; config.Protocol := "tcp";
     config.LocalAddr := "127.0.0.1:22"; config.RemotePort := 10022 |}.

Definition dbTunnel : config.Tunnel :=
  {| config.Name := "db"; config.Protocol := "tcp";
     config.LocalAddr := "127.0.0.1:5432"; config.RemotePort := 15432 |}.

Definition agentConfig : config.ClientConfig :=
  {| config.ServerAddr := "relay:7000"; config.cli_Token := "T";
     config.Tunnels := [webTunnel; sshTunnel; dbTunnel] |}.

Definition agent : client.Client :=
  {| client.Config := agentConfig; client.controlConn := None;
     client.connected := false |}.

Definition connectedAgent : client.Client :=
  {| client.Config := agentConfig; client.controlConn := Some 1%nat;
     client.connected := true |}.

Definition authOk : Decoded Payload :=
  DecMsg {| Type_ := TypeAuthResp;
            Payload_ :=
              PAuthResponse
                {| auth_Success := true; auth_Error := EmptyString |} |}.

Definition regResp (name : string) (ok : bool) (port : Z) (err : string)
  : Decoded Payload :=
  DecMsg {| Type_ := TypeRegResp;
            Payload_ :=
              PRegTunnelResponse
                {| resp_Name := name; resp_Success := ok;
                   resp_RemotePort := port; resp_Error := err |} |}.

Definition newConnMsg (id name : string) : Decoded Payload :=
  DecMsg {| Type_ := TypeNewConn;
            Payload_ :=
              PNewConnRequest
                {| nc_ConnID := id; nc_TunnelName := name |} |}.

Definition pingMsg : Message Payload :=
  {| Type_ := TypePing; Payload_ := PNil |}.

Definition authMsg (token : string) : Message Payload :=
  {| Type_ := TypeAuth; Payload_ := PAuthRequest {| Token := token |} |}.

(** The relay answers the authentication and the three registrations (the
    second is refused); then a ping cannot be written, and a new-connection
    notification arrives. *)
Definition agentWire : client.Wire Payload :=
  {| client.inbox :=
       [authOk; regResp "web" true 10080 EmptyString;
        regResp "ssh" false 0 "Port 10022 is out of allowed range";
        regResp "db" true 15432 EmptyString;
        newConnMsg "1700000000000000000" "web"];
     client.outcomes := [true; true; true; true; false];
     client.events := [] |}.

(** The wire of an agent that is connected and idle: the next write
    succeeds and the relay answers with the given response. *)
Definition idleWire (answer : Decoded Payload) : client.Wire Payload :=
  {| client.inbox := [answer]; client.outcomes := [true];
     client.events := [] |}.

Definition mailTunnel : config.Tunnel :=
  {| config.Name := "mail"; config.Protocol := "tcp";
     config.LocalAddr := "127.0.0.1:25"; config.RemotePort := 10025 |}.

(** The clock reading of the accepts in the examples. *)
Definition clock : Z := 1700000000000000000.

(** The relay after a public connection (handle 7) was accepted on the
    tunnel [web] and the agent was notified. *)
Definition relayPending : server.Server :=
  server.handlePublicConnection okEnv 0%nat 7%nat clock relayWithWeb.

(** The data connection of the agent (handle 9) claims the pending
    connection while its expiry fires: two interleavings of the statements
    of the two goroutines, one where the claim takes the mutex first and one
    where the expiry does. *)
Definition claimFirst : list race.Tid :=
  [race.TClaim; race.TExpire; race.TClaim; race.TClaim; race.TExpire;
   race.TClaim; race.TClaim; race.TClaim; race.TExpire; race.TClaim;
   race.TClaim; race.TExpire; race.TExpire; race.TClaim; race.TExpire].

Definition expiryFirst : list race.Tid :=
  [race.TExpire; race.TClaim; race.TExpire; race.TClaim; race.TExpire;
   race.TExpire; race.TClaim; race.TExpire; race.TExpire; race.TClaim;
   race.TClaim; race.TClaim; race.TClaim; race.TClaim].

Definition pendingWeb : server.PendingConn :=
  {| server.Conn_ := 7%nat; server.Tunnel_ := 0%nat |}.

Definition lowRequest : RegTunnelRequest :=
  {| req_Name := "low"; req_Protocol := "tcp"; req_RemotePort := 9000 |}.

(** A second request under the name [web], on another port. *)
Definition webAgain : RegTunnelRequest :=
  {| req_Name := "web"; req_Protocol := "tcp"; req_RemotePort := 10081 |}.

(** The agent of [agentWire] once [Start] has reached its read loop. *)
Definition afterStart : client.Session :=
  {| client.cli := connectedAgent; client.conn := 1%nat;
     client.wire :=
       {| client.inbox := [newConnMsg "1700000000000000000" "web"];
          client.outcomes := [false];
          client.events :=
            [client.EvWrite 1%nat TypeAuth
               (PAuthRequest {| Token := "T" |}) true;
             client.EvRead 1%nat;
             client.EvWrite 1%nat TypeRegTunnel
               (PRegTunnelRequest (client.regRequest webTunnel)) true;
             client.EvRead 1%nat;
             client.EvWrite 1%nat TypeRegTunnel
               (PRegTunnelRequest (client.regRequest sshTunnel)) true;
             client.EvRead 1%nat;
             client.EvWrite 1%nat TypeRegTunnel
               (PRegTunnelRequest (client.regRequest dbTunnel)) true;
             client.EvRead 1%nat;
             client.EvGoHeartbeat 1%nat 10000000000] |};
     client.heartbeatRunning := true; client.startRunning := true;
     client.result := None |}.

End examples.

(** ** The invariant of the race between claim and expiry *)

Module raceinv.
Import server race.

(** The cleanup of the claim path and of the expiry path, each in the
    order of its statements. *)
Definition claimTrace (clientConn : Conn) (id : string) (pc0 : PendingConn)
  : list (Tid * Action) :=
  [(TClaim, ADelete id); (TClaim, ABridge (Conn_ pc0) clientConn);
   (TClaim, AClose (Conn_ pc0)); (TClaim, ADecr (Tunnel_ pc0))].

Definition expireTrace (id : string) (pc0 : PendingConn)
  : list (Tid * Action) :=
  [(TExpire, AClose (Conn_ pc0)); (TExpire, ADelete id);
   (TExpire, ADecr (Tunnel_ pc0))].

Definition replay (tr : list (Tid * Action)) (s : Server) : Server :=
  fold_left (fun s x => apply (snd x) s) tr s.

(** The program points between [Lock] and [Unlock]. *)
Definition claimHolds (p : ClaimPc) : bool :=
  match p with
  | CLookup | CDelete _ | CUnlock _ => true
  | _ => false
  end.

Definition expireHolds (p : ExpirePc) : bool :=
  match p with
  | ELock | EDone => false
  | _ => true
  end.

(** The owner of the mutex the program points imply; there is none when
    both goroutines would be inside. *)
Definition muOf (c : ClaimPc) (e : ExpirePc) : option (option Tid) :=
  match claimHolds c, expireHolds e with
  | true, true => None
  | true, false => Some (Some TClaim)
  | false, true => Some (Some TExpire)
  | false, false => Some None
  end.

(** The claim found the entry; the number is how much of its cleanup it
    has performed. *)
Inductive claimWon (pc0 : PendingConn) : ClaimPc -> nat -> Prop :=
  | cw_delete : claimWon pc0 (CDelete (Some pc0)) 0
  | cw_unlock : claimWon pc0 (CUnlock (Some pc0)) 1
  | cw_check : claimWon pc0 (CCheck (Some pc0)) 1
  | cw_bridge : claimWon pc0 (CBridge pc0) 1
  | cw_close : claimWon pc0 (CClose pc0) 2
  | cw_decr : claimWon pc0 (CDecr pc0) 3
  | cw_done : claimWon pc0 CDone 4.

(** The claim has not looked yet, or found nothing. *)
Inductive claimLost : ClaimPc -> Prop :=
  | cl_lock : claimLost CLock
  | cl_lookup : claimLost CLookup
  | cl_delete : claimLost (CDelete None)
  | cl_unlock : claimLost (CUnlock None)
  | cl_check : claimLost (CCheck None)
  | cl_done : claimLost CDone.

Inductive expireWon (pc0 : PendingConn) : ExpirePc -> nat -> Prop :=
  | ew_close : expireWon pc0 (EClose pc0) 0
  | ew_delete : expireWon pc0 (EDelete pc0) 1
  | ew_decr : expireWon pc0 (EDecr pc0) 2
  | ew_unlock : expireWon pc0 EUnlock 3
  | ew_done : expireWon pc0 EDone 3.

Inductive expireLost : ExpirePc -> Prop :=
  | el_lock : expireLost ELock
  | el_lookup : expireLost ELookup
  | el_unlock : expireLost EUnlock
  | el_done : expireLost EDone.

(** Who has taken the entry, and how far its cleanup has come. *)
Inductive Phase (clientConn : Conn) (id : string) (pc0 : PendingConn)
    (r : Racing) : Prop :=
  | ph_none :
      claim r = CLock \/ claim r = CLookup ->
      expiry r = ELock \/ expiry r = ELookup ->
      trace r = [] ->
      Phase clientConn id pc0 r
  | ph_claim (k : nat) :
      claimWon pc0 (claim r) k -> expireLost (expiry r) ->
      trace r = take k (claimTrace clientConn id pc0) ->
      Phase clientConn id pc0 r
  | ph_expire (k : nat) :
      expireWon pc0 (expiry r) k -> claimLost (claim r) ->
      trace r = take k (expireTrace id pc0) ->
      Phase clientConn id pc0 r.

Record Inv (clientConn : Conn) (id : string) (s0 : Server)
    (pc0 : PendingConn) (r : Racing) : Prop := {
  inv_srv : srv r = replay (trace r) s0;
  inv_mu : muOf (claim r) (expiry r) = Some (pendingMu r);
  inv_phase : Phase clientConn id pc0 r
}.

End raceinv.

(** ** The relay as a whole *)

Module relay.
Import protocol server.

(** How many pending connections point to a tunnel. *)
Definition pendingOf (t : TunnelPtr) (m : gmap string PendingConn) : nat :=
  size (filter (fun kv => Tunnel_ kv.2 = t) m).

(** The pointers the relay holds lead somewhere: a name of the registry
    leads to a [Tunnel] of that name, a pending connection and a running
    accept loop to a [Tunnel] in memory, and the listener of a [Tunnel] was
    made for its port. *)
Definition wellFormed (s : Server) : Prop :=
  (forall name t,
     tunnels s !! name = Some t ->
     exists tun, heap s !! t = Some tun /\ Name tun = name) /\
  (forall id pc,
     pendingConns s !! id = Some pc -> is_Some (heap s !! Tunnel_ pc)) /\
  (forall t, EvGoAccept t ∈ events s -> is_Some (heap s !! t)) /\
  (forall t tun,
     heap s !! t = Some tun ->
     exists open, listeners s !! Listener_ tun = Some (RemotePort tun, open)).

(** The live counter of every tunnel is the number of its pending
    connections (as an [int64]). *)
Definition counted (s : Server) : Prop :=
  forall t tun,
    heap s !! t = Some tun ->
    ActiveConns tun = wrap64 (Z.of_nat (pendingOf t (pendingConns s))).

Definition good (s : Server) : Prop := wellFormed s /\ counted s.

(** Every listener the relay has bound is still open. *)
Definition allOpen (s : Server) : Prop :=
  forall port ln,
    EvListen port (Some ln) ∈ events s ->
    listeners s !! ln = Some (port, true).

(** What serving a control connection does to the relay: it appends to the
    log, keeps every listener and every registered name, leaves the
    listeners it binds open, closes no listener, and writes on its own
    connection only. *)
Definition served (conn : Conn) (s s' : Server) : Prop :=
  exists new,
    events s' = events s ++ new /\
    (forall l st, listeners s !! l = Some st -> listeners s' !! l = Some st) /\
    (forall n, is_Some (tunnels s !! n) -> is_Some (tunnels s' !! n)) /\
    (forall port ln,
       EvListen port (Some ln) ∈ new ->
       listeners s' !! ln = Some (port, true)) /\
    (forall l, EvListenerClose l ∉ new) /\
    (forall c ty p ok, EvWrite c ty p ok ∈ new -> c = conn).

(** One entry of the [tunnels] list of [GetStatus]. *)
Record TunnelStatus := {
  st_name : string;
  st_protocol : string;
  st_remote_port : Z;
  st_active_conns : Z
}.

Record Status := {
  st_mode : string;
  st_control_port : Z;
  st_tunnels_count : nat;
  st_tunnels : list TunnelStatus
}.

Definition statusOf (t : Tunnel) : TunnelStatus :=
  {| st_name := Name t; st_protocol := Protocol t;
     st_remote_port := RemotePort t; st_active_conns := ActiveConns t |}.

(** [GetStatus] of the relay.  Go ranges over the registry in no fixed
    order; here the entries come in the order of [map_to_list]. *)
Definition GetStatus (s : Server) : Status :=
  let tunnels :=
    (fun kv => statusOf (deref s kv.2)) <$> map_to_list (tunnels s) in
  {| st_mode := "server";
     st_control_port := config.ControlPort (Config s);
     st_tunnels_count := length tunnels;
     st_tunnels := tunnels |}.

(** The message types the command loop of the relay acts on. *)
Definition handled (ty : MessageType) : bool :=
  bool_decide (ty = TypeRegTunnel) || bool_decide (ty = TypePing) ||
  bool_decide (ty = TypeProxyData).

Section WithCodec.
Context {Raw : Type} `{Codec Raw}.


(** The messages of the inbox the command loop does not skip. *)
Definition relevant (d : Decoded Raw) : bool :=
  match d with
  | DecMsg msg => handled (Type_ msg)
  | _ => true
  end.

(** The command loop reads on after this message. *)
Definition readsOn (d : Decoded Raw) : bool :=
  match d with
  | DecMsg msg => negb (bool_decide (Type_ msg = TypeProxyData))
  | _ => false
  end.

End WithCodec.

End relay.

(** ** The states of an agent session *)

Module agentinv.
Import protocol client.

Section WithCodec.
Context {Raw : Type} `{Codec Raw}.

(** A session is reading and connected, or has returned with an error,
    disconnected and with its connection closed. *)
Definition sessionOk (s : Session) : Prop :=
  (startRunning s = true /\ result s = None /\
   connected (cli s) = true /\ controlConn (cli s) = Some (conn s)) \/
  (startRunning s = false /\ is_Some (result s) /\
   connected (cli s) = false /\ controlConn (cli s) = None /\
   EvClose (conn s) ∈ @events Raw (wire s)).

End WithCodec.

End agentinv.

(** ** internal/client: the data connection *)

Module dataconn.
Import protocol.

Definition Conn := nat.

(** What [handleNewConn] does to the outside world. *)
Inductive Event :=
  | EvDial (addr : string) (res : option Conn)
  | EvWrite (c : Conn) (ty : MessageType) (p : Payload) (ok : bool)
  | EvRead (c : Conn)
  | EvBridge (localConn serverConn : Conn)
  | EvClose (c : Conn).

(** The network as one [handleNewConn] meets it: the connection [net.Dial]
    returns for an address ([None]: an error), whether the successive
    writes on the data connection succeed, and what its one [Decode]
    returns. *)
Record Net (Raw : Type) := {
  dial : string -> option Conn;
  outcomes : list bool;
  answer : Decoded Raw
}.
Arguments dial {Raw} _ _.
Arguments outcomes {Raw} _.
Arguments answer {Raw} _.

(** The loop over [c.Config.Tunnels] that finds the local address: that of
    the first tunnel of the name, or the empty string. *)
Fixpoint localAddrOf (name : string) (ts : list config.Tunnel) : string :=
  match ts with
  | [] => EmptyString
  | t :: rest =>
      if String.eqb (config.Name t) name then config.LocalAddr t
      else localAddrOf name rest
  end.

Section WithCodec.
Context {Raw : Type}.

(** [handleNewConn]; the deferred [Close]s run last, the server connection
    before the local one. *)
Definition handleNewConn (c : client.Client) (req : NewConnRequest)
    (net : Net Raw) : list Event :=
  let localAddr :=
    localAddrOf (nc_TunnelName req) (config.Tunnels (client.Config c)) in
  if decide (localAddr = EmptyString) then []
  else
    match dial net localAddr with
    | None => [EvDial localAddr None]
    | Some localConn =>
        let serverAddr := config.ServerAddr (client.Config c) in
        match dial net serverAddr with
        | None =>
            [EvDial localAddr (Some localConn); EvDial serverAddr None;
             EvClose localConn]
        | Some serverConn =>
            let ok1 := hd false (outcomes net) in
            let ok2 := hd false (tl (outcomes net)) in
            let auth :=
              EvWrite serverConn TypeAuth
                (PAuthRequest
                   {| Token := config.cli_Token (client.Config c) |}) ok1 in
            let claim :=
              EvWrite serverConn TypeProxyData
                (PProxyDataRequest {| pd_ConnID := nc_ConnID req |}) ok2 in
            [EvDial localAddr (Some localConn);
             EvDial serverAddr (Some serverConn); auth] ++
            (if negb ok1 then []
             else
               EvRead serverConn ::
               match answer net with
               | DecMsg _ =>
                   claim ::
                   (if negb ok2 then []
                    else [EvBridge localConn serverConn])
               | _ => []
               end) ++
            [EvClose serverConn; EvClose localConn]
        end
    end.

End WithCodec.

(** The connections a run has dialled, and those it has closed. *)
Definition opened (evs : list Event) : list Conn :=
  flat_map (fun e => match e with EvDial _ (Some c) => [c] | _ => [] end) evs.

Definition closed (evs : list Event) : list Conn :=
  flat_map (fun e => match e with EvClose c => [c] | _ => [] end) evs.

End dataconn.

(** ** internal/web: removing a tunnel *)

Module webtunnels.
Import protocol client.

(** [RemoveTunnel] of the agent: nothing is sent to the relay. *)
Definition RemoveTunnel (c : Client) (name : string) : option errors.error :=
  None.

(** The loop of the [DELETE] branch: the list without its first tunnel of
    the name. *)
Fixpoint removeFirst (name : string) (ts : list config.Tunnel)
  : list config.Tunnel :=
  match ts with
  | [] => []
  | t :: rest =>
      if String.eqb (config.Name t) name then rest
      else t :: removeFirst name rest
  end.

Section WithCodec.
Context {Raw : Type}.

(** The [DELETE] branch of [handleTunnels] on an agent. *)
Definition handleTunnelsDelete (c : Client) (name : string) (w : Wire Raw)
  : Z * Client * Wire Raw :=
  match RemoveTunnel c name with
  | Some _ => (500, c, w)
  | None =>
      (200,
       {| Config :=
            {| config.ServerAddr := config.ServerAddr (Config c);
               config.cli_Token := config.cli_Token (Config c);
               config.Tunnels :=
                 removeFirst name (config.Tunnels (Config c)) |};
          controlConn := controlConn c; connected := connected c |},
       w)
  end.

End WithCodec.

End webtunnels.

(** ** The two ends of a connection *)

Module link.
Import protocol.

Section Link.
Context {Raw : Type} `{Codec Raw}.
Variable marshal : Payload -> Raw.

(** [json.Unmarshal] reads back what [json.Marshal] wrote. *)
Definition Lawful : Prop :=
  (forall r, UnmarshalAuthRequest (marshal (PAuthRequest r)) = Some r) /\
  (forall r, UnmarshalAuthResponse (marshal (PAuthResponse r)) = Some r) /\
  (forall r,
     UnmarshalRegTunnelRequest (marshal (PRegTunnelRequest r)) = Some r) /\
  (forall r,
     UnmarshalRegTunnelResponse (marshal (PRegTunnelResponse r)) = Some r) /\
  (forall r, UnmarshalNewConnRequest (marshal (PNewConnRequest r)) = Some r)
  /\
  (forall r,
     UnmarshalProxyDataRequest (marshal (PProxyDataRequest r)) = Some r).

Definition envelope (ty : MessageType) (p : Payload) : Decoded Raw :=
  DecMsg {| Type_ := ty; Payload_ := marshal p |}.

(** What the peer of a connection of the relay decodes: the messages the
    relay wrote on it without error, in order. *)
Definition delivered (conn : server.Conn) (evs : list server.Event)
  : list (Decoded Raw) :=
  flat_map
    (fun e =>
       match e with
       | server.EvWrite c ty p true =>
           if decide (c = conn) then [envelope ty p] else []
       | _ => []
       end) evs.

(** What the relay decodes on the connection of an agent: the messages the
    agent wrote without error, in order. *)
Definition uplink (evs : list client.Event) : list (Decoded Raw) :=
  flat_map
    (fun e =>
       match e with
       | client.EvWrite _ ty p true => [envelope ty p]
       | _ => []
       end) evs.

(** What the relay decodes on a data connection of an agent. *)
Definition dataUplink (evs : list dataconn.Event) : list (Decoded Raw) :=
  flat_map
    (fun e =>
       match e with
       | dataconn.EvWrite _ ty p true => [envelope ty p]
       | _ => []
       end) evs.

End Link.

End link.

(** ** Concrete runs *)

Module scenarios.
Import protocol examples.

Definition regMsg (r : RegTunnelRequest) : Decoded Payload :=
  DecMsg {| Type_ := TypeRegTunnel; Payload_ := PRegTunnelRequest r |}.

Definition relayCfg : config.ServerConfig := relayConfig "10000-10100".

(** An agent authenticates on connection 1, registers [web] and hangs up. *)
Definition relayServed : server.Server :=
  server.handleControlConnection okEnv 1%nat
    [DecMsg (authMsg "T"); regMsg webRequest] (server.NewServer relayCfg).

(** Then a public connection (handle 7) is accepted on [web]. *)
Definition relayAccepted : server.Server :=
  server.handlePublicConnection okEnv 0%nat 7%nat clock relayServed.

(** The session of [afterStart] after the notification was read and the
    relay hung up. *)
Definition returnedSession : client.Session :=
  client.sessionRun [client.Readable; client.Readable] afterStart.

(** The network of a data connection: the local services and the relay
    answer, both writes go through, the relay accepts the token. *)
Definition dataNet : dataconn.Net Payload :=
  {| dataconn.dial := fun addr =>
       if String.eqb addr "127.0.0.1:80" then Some 11%nat
       else if String.eqb addr "127.0.0.1:22" then Some 12%nat
       else if String.eqb addr "relay:7000" then Some 20%nat
       else None;
     dataconn.outcomes := [true; true];
     dataconn.answer := authOk |}.

Definition sshNotification : NewConnRequest :=
  {| nc_ConnID := "1700000000000000000"; nc_TunnelName := "ssh" |}.

(** A codec for [typedCodec]: the payload is its own encoding. *)
Definition marshal (p : Payload) : Payload := p.

End scenarios.

(** * Properties *)

(** ** The standard library functions *)

Section Strconv.
Import strconv.

Lemma digits_pos_acc (d : Decimal.uint) (p : positive) :
  digits (NilEmpty.string_of_uint d) (Z.pos p) =
  Some (Z.pos (Pos.of_uint_acc d p)).
Proof.
  revert p; induction d; intros p; simpl; try reflexivity;
    rewrite <- IHd; f_equal; lia.
Qed.

Lemma digits_of_uint (d : Decimal.uint) :
  digits (NilEmpty.string_of_uint d) 0 = Some (Z.of_N (Pos.of_uint d)).
Proof.
  induction d; simpl; try reflexivity; try exact IHd;
    apply digits_pos_acc.
Qed.

Lemma allDigits_of_uint (d : Decimal.uint) :
  props.allDigits (NilEmpty.string_of_uint d) = true.
Proof. induction d; simpl; auto. Qed.

Lemma Sprintd_nonneg (z : Z) :
  0 <= z ->
  exists d, fmt.Sprintd z = NilEmpty.string_of_uint d /\
            d <> Decimal.Nil /\ Z.of_N (Pos.of_uint d) = z.
Proof.
  intros Hz. destruct z as [|p|p]; [| |lia].
  - exists (Decimal.D0 Decimal.Nil). repeat split; discriminate.
  - exists (Pos.to_uint p). unfold fmt.Sprintd; simpl.
    pose proof (Unsigned.to_uint_nonnil p) as Hn.
    repeat split; [|assumption|by rewrite Unsigned.of_to].
    destruct (Pos.to_uint p); [congruence|reflexivity..].
Qed.

Lemma digits_Sprintd (z : Z) :
  0 <= z -> digits (fmt.Sprintd z) 0 = Some z.
Proof.
  intros Hz. destruct (Sprintd_nonneg z Hz) as (d & -> & _ & <-).
  apply digits_of_uint.
Qed.

Lemma allDigits_Sprintd (z : Z) :
  0 <= z ->
  props.allDigits (fmt.Sprintd z) = true /\
  props.nonEmpty (fmt.Sprintd z) = true.
Proof.
  intros Hz. destruct (Sprintd_nonneg z Hz) as (d & -> & Hd & _).
  split; [apply allDigits_of_uint|]. by destruct d.
Qed.

Lemma isDigit_digit (c : ascii) :
  props.isDigit c = true -> exists d, digit c = Some d /\ 0 <= d <= 9.
Proof.
  unfold props.isDigit, digit. intros Hc; rewrite Hc.
  eexists; split; [reflexivity|]. lia.
Qed.

Lemma digit_isDigit (c : ascii) :
  props.isDigit c = false -> digit c = None.
Proof. unfold props.isDigit, digit. by intros ->. Qed.

Lemma digits_allDigits (s : string) (n : Z) :
  props.allDigits s = false -> digits s n = None.
Proof.
  revert n; induction s as [|c s IH]; intros n; simpl; [discriminate|].
  destruct (props.isDigit c) eqn:Hc; simpl.
  - intros Hs. destruct (isDigit_digit c Hc) as (d & -> & _). by apply IH.
  - intros _. by rewrite (digit_isDigit c Hc).
Qed.

Lemma isDigit_not_sign (c : ascii) :
  props.isDigit c = true -> Ascii.eqb c "-" || Ascii.eqb c "+" = false.
Proof.
  intros Hc. destruct (Ascii.eqb_spec c "-") as [->|]; [discriminate Hc|].
  destruct (Ascii.eqb_spec c "+") as [->|]; [discriminate Hc|]. reflexivity.
Qed.

Lemma digit_range (c : ascii) (d : Z) : digit c = Some d -> 0 <= d <= 9.
Proof.
  unfold digit.
  destruct (Z.leb_spec 48 (Z.of_N (N_of_ascii c)));
    destruct (Z.leb_spec (Z.of_N (N_of_ascii c)) 57); simpl;
    intros [= <-]; lia.
Qed.

Lemma digits_ge (s : string) (n m : Z) :
  digits s n = Some m -> 0 <= n -> n <= m.
Proof.
  revert n; induction s as [|c s IH]; intros n; simpl.
  - intros [= <-] _. lia.
  - destruct (digit c) as [d|] eqn:Hd; [|discriminate].
    intros Hm Hn. pose proof (digit_range c d Hd).
    specialize (IH _ Hm). lia.
Qed.

Lemma maxUint64_val : maxUint64 = 18446744073709551615.
Proof. reflexivity. Qed.

Lemma cutoff_val : maxUint64 / 10 + 1 = 1844674407370955162.
Proof. reflexivity. Qed.

Lemma two64_val : 2 ^ 64 = 18446744073709551616.
Proof. reflexivity. Qed.

Lemma two63_val : 2 ^ 63 = 9223372036854775808.
Proof. reflexivity. Qed.

(** One round of the loop of [ParseUint] on a digit: either the value read
    so far, with the digit, still fits and the loop goes on with it, or it
    does not and the range error is returned. *)
Lemma ParseUint_loop_digit (c : ascii) (s : string) (n d : Z) :
  digit c = Some d -> 0 <= n <= maxUint64 ->
  ParseUint_loop (String c s) n =
    if n * 10 + d <=? maxUint64 then ParseUint_loop s (n * 10 + d)
    else (maxUint64, Some ErrRange).
Proof.
  intros Hd Hn. pose proof (digit_range c d Hd) as Hr.
  simpl. rewrite Hd, cutoff_val, two64_val.
  rewrite maxUint64_val in *.
  destruct (Z.leb_spec 1844674407370955162 n).
  - destruct (Z.leb_spec (n * 10 + d) 18446744073709551615); [lia|done].
  - rewrite (Z.mod_small (n * 10)) by lia.
    destruct (Z.leb_spec (n * 10 + d) 18446744073709551615).
    + rewrite (Z.mod_small (n * 10 + d)) by lia.
      destruct (Z.ltb_spec (n * 10 + d) (n * 10)); [lia|].
      destruct (Z.gtb_spec (n * 10 + d) 18446744073709551615); [lia|done].
    + replace ((n * 10 + d) mod 18446744073709551616)
        with (n * 10 + d - 18446744073709551616).
      * destruct (Z.ltb_spec (n * 10 + d - 18446744073709551616) (n * 10));
          [done|lia].
      * apply Z.mod_unique with 1; lia.
Qed.

(** On a string of digits whose value fits, [ParseUint] agrees with the
    digit loop of the fast path. *)
Lemma ParseUint_loop_digits (s : string) (n m : Z) :
  digits s n = Some m -> 0 <= n -> m <= maxUint64 ->
  ParseUint_loop s n = (m, None).
Proof.
  revert n; induction s as [|c s IH]; intros n.
  - simpl. by intros [= <-].
  - simpl digits. destruct (digit c) as [d|] eqn:Hd; [|discriminate].
    intros Hm Hn Hmax. pose proof (digit_range c d Hd) as Hr.
    pose proof (digits_ge _ _ _ Hm ltac:(lia)) as Hge.
    rewrite (ParseUint_loop_digit c s n d Hd) by lia.
    destruct (Z.leb_spec (n * 10 + d) maxUint64); [|lia].
    apply IH; [done|lia|done].
Qed.

(** [Atoi] reads back what [%d] prints, for every non-negative [int]. *)
Lemma Atoi_Sprintd (z : Z) :
  0 <= z <= MaxInt -> Atoi (fmt.Sprintd z) = (z, None).
Proof.
  intros [Hz Hmax].
  destruct (allDigits_Sprintd z Hz) as [Hall Hne].
  pose proof (digits_Sprintd z Hz) as Hd.
  unfold MaxInt in Hmax. rewrite two63_val in Hmax.
  destruct (fmt.Sprintd z) as [|c rest] eqn:Hs; [discriminate|].
  simpl in Hall. apply andb_prop in Hall as [Hc _].
  pose proof (isDigit_not_sign c Hc) as Hsign.
  apply orb_false_elim in Hsign as [Hminus Hplus].
  unfold Atoi. destruct (_ && _).
  - rewrite Hminus, Hplus. cbn [orb]. by rewrite Hd.
  - unfold ParseInt, ParseUint. rewrite Hminus, Hplus.
    rewrite (ParseUint_loop_digits _ 0 z Hd) by (rewrite ?maxUint64_val; lia).
    rewrite two63_val. simpl.
    destruct (Z.leb_spec 9223372036854775808 z); [lia|reflexivity].
Qed.

Lemma leading_ge (s : string) (n : Z) : 0 <= n -> n <= props.leading s n.
Proof.
  revert n; induction s as [|c s IH]; intros n Hn; simpl; [lia|].
  destruct (props.isDigit c) eqn:Hc; [|lia].
  destruct (isDigit_digit c Hc) as (d & Hd & Hr).
  unfold digit in Hd. unfold props.isDigit in Hc. rewrite Hc in Hd.
  injection Hd as Hd. rewrite Hd.
  specialize (IH (n * 10 + d)). lia.
Qed.

Lemma leading_bound (s : string) (n : Z) :
  0 <= n -> props.leading s n < (n + 1) * 10 ^ Z.of_nat (String.length s).
Proof.
  revert n; induction s as [|c s IH]; intros n Hn.
  - simpl. lia.
  - simpl props.leading. simpl String.length.
    rewrite Nat2Z.inj_succ, Z.pow_succ_r by lia.
    assert (Hp : 0 < 10 ^ Z.of_nat (String.length s))
      by (apply Z.pow_pos_nonneg; lia).
    destruct (props.isDigit c) eqn:Hc; [|nia].
    destruct (isDigit_digit c Hc) as (d & Hd & Hr).
    unfold digit in Hd. unfold props.isDigit in Hc. rewrite Hc in Hd.
    injection Hd as Hd. rewrite Hd.
    specialize (IH (n * 10 + d) ltac:(lia)). nia.
Qed.

Lemma length_unsigned (s : string) :
  (String.length (props.unsigned s) <= String.length s)%nat.
Proof.
  destruct s as [|c rest]; simpl; [lia|].
  destruct (_ || _); simpl; lia.
Qed.

(** A part shorter than 19 bytes cannot hold more than 64 bits. *)
Lemma fits64_short (s : string) :
  (String.length s < 19)%nat -> props.fits64 s = true.
Proof.
  intros Hlen. unfold props.fits64. apply Z.leb_le.
  pose proof (leading_bound (props.unsigned s) 0 ltac:(lia)) as Hb.
  pose proof (length_unsigned s) as Hu.
  assert (Hpow : 10 ^ Z.of_nat (String.length (props.unsigned s)) <= 10 ^ 18)
    by (apply Z.pow_le_mono_r; lia).
  rewrite maxUint64_val.
  change (10 ^ 18) with 1000000000000000000 in Hpow. lia.
Qed.

(** The loop of [ParseUint] on a string that holds a byte other than a
    digit: the syntax error, unless the digits before that byte overflow. *)
Lemma ParseUint_loop_nonNumeric (s : string) (n : Z) :
  props.allDigits s = false -> 0 <= n <= maxUint64 ->
  ParseUint_loop s n =
    if props.leading s n <=? maxUint64 then (0, Some ErrSyntax)
    else (maxUint64, Some ErrRange).
Proof.
  revert n; induction s as [|c s IH]; intros n; [discriminate|].
  simpl props.allDigits. simpl props.leading.
  destruct (props.isDigit c) eqn:Hc; simpl andb; intros Hall Hn.
  - destruct (isDigit_digit c Hc) as (d & Hd & Hr).
    rewrite (ParseUint_loop_digit c s n d Hd Hn).
    assert (Hdd : Z.of_N (N_of_ascii c) - 48 = d).
    { unfold digit in Hd. unfold props.isDigit in Hc. rewrite Hc in Hd.
      by injection Hd. }
    rewrite Hdd.
    destruct (Z.leb_spec (n * 10 + d) maxUint64).
    + apply IH; [done|lia].
    + pose proof (leading_ge s (n * 10 + d) ltac:(lia)).
      destruct (Z.leb_spec (props.leading s (n * 10 + d)) maxUint64);
        [lia|done].
  - simpl. rewrite (digit_isDigit c Hc).
    destruct (Z.leb_spec n maxUint64); [done|lia].
Qed.

Lemma ParseUint_nonNumeric (s : string) :
  props.nonEmpty s && props.allDigits s = false ->
  ParseUint s =
    if props.leading s 0 <=? maxUint64 then (0, Some ErrSyntax)
    else (maxUint64, Some ErrRange).
Proof.
  destruct s as [|c s]; [reflexivity|]. simpl props.nonEmpty.
  rewrite andb_true_l. intros Hall. unfold ParseUint.
  apply ParseUint_loop_nonNumeric; [done|]. rewrite maxUint64_val. lia.
Qed.

(** [Atoi] on a string that is not a decimal number: 0 with the syntax
    error when the offending byte is met before any overflow, and otherwise
    the bound of [int] on the side of the sign, with the range error. *)
Lemma Atoi_nonNumeric (s : string) :
  props.isNumeric s = false ->
  Atoi s =
    if props.fits64 s then (0, Some ErrSyntax)
    else (if props.negative s then MinInt else MaxInt, Some ErrRange).
Proof.
  intros Hnum. unfold Atoi.
  destruct ((0 <? String.length s)%nat && (String.length s <? 19)%nat)
    eqn:Hfast.
  - apply andb_prop in Hfast as [_ Hlen%Nat.ltb_lt].
    rewrite (fits64_short s Hlen).
    destruct s as [|c rest]; [reflexivity|]. unfold props.isNumeric in Hnum.
    destruct (Ascii.eqb c "-" || Ascii.eqb c "+").
    + destruct rest as [|c' rest']; [reflexivity|].
      simpl props.nonEmpty in Hnum. rewrite andb_true_l in Hnum.
      by rewrite (digits_allDigits _ 0 Hnum).
    + by rewrite (digits_allDigits _ 0 Hnum).
  - destruct s as [|c rest]; [reflexivity|].
    unfold ParseInt, props.fits64, props.negative, props.unsigned.
    unfold props.isNumeric in Hnum.
    assert (Hbody :
      (if Ascii.eqb c "+" then rest
       else if Ascii.eqb c "-" then rest else String c rest) =
      (if Ascii.eqb c "-" || Ascii.eqb c "+" then rest else String c rest))
      by (by destruct (Ascii.eqb c "+"), (Ascii.eqb c "-")).
    rewrite Hbody.
    assert (Hun :
      props.nonEmpty
        (if Ascii.eqb c "-" || Ascii.eqb c "+" then rest else String c rest)
      && props.allDigits
           (if Ascii.eqb c "-" || Ascii.eqb c "+" then rest
            else String c rest) = false)
      by (by destruct (Ascii.eqb c "-" || Ascii.eqb c "+")).
    rewrite (ParseUint_nonNumeric _ Hun).
    destruct (_ <=? maxUint64); [reflexivity|].
    rewrite maxUint64_val, two63_val. unfold MinInt, MaxInt.
    rewrite two63_val. by destruct (Ascii.eqb c "-").
Qed.

Lemma Sprintd_inj (z1 z2 : Z) : fmt.Sprintd z1 = fmt.Sprintd z2 -> z1 = z2.
Proof.
  unfold fmt.Sprintd. intros Heq. apply DecimalZ.to_int_inj.
  assert (Hnn : forall z, Z.to_int z <> Decimal.Pos Decimal.Nil /\
                          Z.to_int z <> Decimal.Neg Decimal.Nil).
  { intros [|p|p]; simpl; split; try discriminate;
      intros [= Hp]; by apply (Unsigned.to_uint_nonnil p). }
  assert (Some (Z.to_int z1) = Some (Z.to_int z2)) as [= ->]; [|done].
  rewrite <- (NilZero.isi (Z.to_int z1)), <- (NilZero.isi (Z.to_int z2));
    try apply Hnn.
  by rewrite Heq.
Qed.

End Strconv.

Section Strings.
Import strings.

Lemma Split_noDash (s : string) :
  props.noDash s = true -> Split s "-" = [s].
Proof.
  induction s as [|c s IH]; simpl; [done|].
  intros [Hc Hs]%andb_prop. apply negb_true_iff in Hc. rewrite Hc.
  by rewrite (IH Hs).
Qed.

Lemma Split_dash (a b : string) :
  props.noDash a = true -> Split (a +:+ String "-" b) "-" = a :: Split b "-".
Proof.
  induction a as [|c a IH]; simpl; [done|].
  intros [Hc Ha]%andb_prop. apply negb_true_iff in Hc. rewrite Hc.
  by rewrite (IH Ha).
Qed.

Lemma allDigits_noDash (s : string) :
  props.allDigits s = true -> props.noDash s = true.
Proof.
  induction s as [|c s IH]; simpl; [done|].
  intros [Hc Hs]%andb_prop. rewrite (IH Hs), andb_true_r.
  destruct (Ascii.eqb_spec c "-") as [->|]; [discriminate Hc|done].
Qed.

Lemma Split_two (a b : string) :
  props.noDash a = true -> props.noDash b = true ->
  Split (a +:+ "-" +:+ b) "-" = [a; b].
Proof.
  intros Ha Hb. change ("-" +:+ b) with (String "-" b).
  by rewrite (Split_dash a b Ha), (Split_noDash b Hb).
Qed.

End Strings.

(** ** The relay: registration of a tunnel *)

Section Register.
Import protocol server.

Lemma outOfRange_render (r : option (Z * Z)) (port : Z) :
  props.validRange r ->
  outOfRange (props.renderRange r) port = negb (props.inRange r port).
Proof.
  destruct r as [[lo hi]|]; [|reflexivity]. intros [Hlo Hhi].
  unfold outOfRange, props.renderRange, props.inRange.
  destruct (allDigits_Sprintd lo (proj1 Hlo)) as [Hdlo Hnlo].
  destruct (allDigits_Sprintd hi (proj1 Hhi)) as [Hdhi _].
  rewrite (Split_two _ _ (allDigits_noDash _ Hdlo) (allDigits_noDash _ Hdhi)).
  simpl length. simpl nth.
  rewrite (Atoi_Sprintd lo Hlo), (Atoi_Sprintd hi Hhi). simpl fst.
  destruct (decide _) as [_|Hempty].
  - destruct (decide _) as [_|]; [|done].
    destruct (Z.ltb_spec port lo), (Z.gtb_spec port hi),
      (Z.leb_spec lo port), (Z.leb_spec port hi); simpl; try reflexivity; lia.
  - exfalso. apply Hempty. destruct (fmt.Sprintd lo); discriminate.
Qed.

Lemma handleRegisterTunnel_refused (env : Env) (conn : Conn)
    (req : RegTunnelRequest) (s : Server) :
  outOfRange (config.PortRange (Config s)) (req_RemotePort req) = true ->
  props.refused env conn req s (handleRegisterTunnel env conn req s).
Proof.
  intros Hout. unfold handleRegisterTunnel. rewrite Hout.
  repeat split; reflexivity.
Qed.

Lemma handleRegisterTunnel_bind (env : Env) (conn : Conn)
    (req : RegTunnelRequest) (s : Server) :
  outOfRange (config.PortRange (Config s)) (req_RemotePort req) = false ->
  props.bindAttempted (req_RemotePort req) s
    (handleRegisterTunnel env conn req s).
Proof.
  intros Hout. unfold handleRegisterTunnel, props.bindAttempted.
  rewrite Hout. destruct (listen_err env (events s) (req_RemotePort req)).
  - eexists None, _. simpl. rewrite <- app_assoc. reflexivity.
  - eexists (Some _), _. simpl. rewrite <- !app_assoc. reflexivity.
Qed.

(** C3. With the range the configuration gives ([min-max], or none), a
    register-tunnel request for a port below [min] or above [max] gets the
    failure response and nothing else happens (no listener, no tunnel); a
    port within the inclusive bounds, and any port when no range is
    configured, goes on to the bind attempt. *)
Theorem register_port_range (env : Env) (conn : Conn)
    (req : RegTunnelRequest) (s : Server) (r : option (Z * Z)) :
  props.validRange r ->
  config.PortRange (Config s) = props.renderRange r ->
  if props.inRange r (req_RemotePort req)
  then props.bindAttempted (req_RemotePort req) s
         (handleRegisterTunnel env conn req s)
  else props.refused env conn req s (handleRegisterTunnel env conn req s).
Proof.
  intros Hvalid Hrange.
  pose proof (outOfRange_render r (req_RemotePort req) Hvalid) as Hout.
  rewrite <- Hrange in Hout.
  destruct (props.inRange r (req_RemotePort req)); simpl in Hout.
  - by apply handleRegisterTunnel_bind.
  - by apply handleRegisterTunnel_refused.
Qed.

Lemma noDash_not_negative (s : string) :
  props.noDash s = true -> props.negative s = false.
Proof.
  destruct s as [|c s]; simpl; [done|].
  intros [Hc _]%andb_prop. by apply negb_true_iff in Hc.
Qed.

(** The bounds the relay reads from a range of two parts of which neither
    is a number. *)
Lemma outOfRange_nonNumeric (a b : string) (port : Z) :
  props.noDash a = true -> props.noDash b = true ->
  props.isNumeric a = false -> props.isNumeric b = false ->
  outOfRange (a +:+ "-" +:+ b) port =
    (port <? (if props.fits64 a then 0 else strconv.MaxInt))
    || (port >? (if props.fits64 b then 0 else strconv.MaxInt)).
Proof.
  intros Ha Hb Hna Hnb. unfold outOfRange.
  rewrite (Split_two a b Ha Hb). simpl length. simpl nth.
  rewrite (Atoi_nonNumeric a Hna), (Atoi_nonNumeric b Hnb).
  rewrite (noDash_not_negative a Ha), (noDash_not_negative b Hb).
  destruct (decide _) as [_|Hempty].
  - destruct (decide _) as [_|]; [|done].
    by destruct (props.fits64 a), (props.fits64 b).
  - exfalso. apply Hempty. destruct a; discriminate.
Qed.

(** C10, as the relay does it.  A non-empty range that does not split on
    [-] into exactly two parts switches the validation off: every port goes
    on to the bind attempt.  A part that is not a number parses as 0 when
    the byte that offends is met before the digits in front of it overflow
    64 bits, which is so for every part shorter than 19 bytes; a range of
    two such parts (such as [a-b]) refuses every port greater than 0.  A
    part whose leading digits overflow parses as the largest [int] (the
    smallest after a minus sign) instead: as the upper bound, over a lower
    bound that parses as 0, it lets every port through to the bind attempt,
    and as the lower bound it refuses every port below the largest [int]. *)
Theorem register_malformed_range (env : Env) (conn : Conn)
    (req : RegTunnelRequest) (s : Server) :
  (config.PortRange (Config s) <> EmptyString ->
   length (strings.Split (config.PortRange (Config s)) "-") <> 2%nat ->
   props.bindAttempted (req_RemotePort req) s
     (handleRegisterTunnel env conn req s)) /\
  (forall part, props.isNumeric part = false ->
     strconv.Atoi part =
       if props.fits64 part then (0, Some strconv.ErrSyntax)
       else (if props.negative part then strconv.MinInt else strconv.MaxInt,
             Some strconv.ErrRange)) /\
  (forall part,
     (String.length part < 19)%nat -> props.fits64 part = true) /\
  (forall a b,
     props.noDash a = true -> props.noDash b = true ->
     props.isNumeric a = false -> props.isNumeric b = false ->
     config.PortRange (Config s) = a +:+ "-" +:+ b ->
     (props.fits64 a = true -> props.fits64 b = true ->
      0 < req_RemotePort req ->
      props.refused env conn req s (handleRegisterTunnel env conn req s)) /\
     (props.fits64 a = true -> props.fits64 b = false ->
      0 <= req_RemotePort req <= strconv.MaxInt ->
      props.bindAttempted (req_RemotePort req) s
        (handleRegisterTunnel env conn req s)) /\
     (props.fits64 a = false ->
      req_RemotePort req < strconv.MaxInt ->
      props.refused env conn req s (handleRegisterTunnel env conn req s))).
Proof.
  split; [|split; [|split]].
  - intros Hne Hlen. apply handleRegisterTunnel_bind. unfold outOfRange.
    destruct (decide _); [|done]. by destruct (decide _).
  - apply Atoi_nonNumeric.
  - apply fits64_short.
  - intros a b Ha Hb Hna Hnb Hrange.
    pose proof (outOfRange_nonNumeric a b (req_RemotePort req) Ha Hb Hna Hnb)
      as Hout.
    rewrite <- Hrange in Hout. split; [|split].
    + intros Hfa Hfb Hport. apply handleRegisterTunnel_refused.
      rewrite Hout, Hfa, Hfb.
      destruct (Z.gtb_spec (req_RemotePort req) 0); [|lia].
      apply orb_true_r.
    + intros Hfa Hfb [Hlo Hhi]. apply handleRegisterTunnel_bind.
      rewrite Hout, Hfa, Hfb.
      destruct (Z.ltb_spec (req_RemotePort req) 0); [lia|].
      destruct (Z.gtb_spec (req_RemotePort req) strconv.MaxInt); [lia|done].
    + intros Hfa Hport. apply handleRegisterTunnel_refused.
      rewrite Hout, Hfa.
      destruct (Z.ltb_spec (req_RemotePort req) strconv.MaxInt); [done|lia].
Qed.

End Register.

Section Replace.
Import protocol server.

Lemma fresh_heap_ne (s : Server) (t : TunnelPtr) :
  is_Some (heap s !! t) -> fresh (dom (heap s)) <> t.
Proof.
  intros Hin Heq. apply (is_fresh (dom (heap s))).
  rewrite Heq. by apply elem_of_dom.
Qed.

Lemma fresh_listener_None (s : Server) :
  listeners s !! fresh (dom (listeners s)) = None.
Proof. apply not_elem_of_dom, is_fresh. Qed.

(** C9. A register-tunnel request whose name is already in the registry,
    on a port that can be bound, puts a new [Tunnel] under the name; the old
    [Tunnel] is still in memory with its listener open, no listener is
    closed by the registration, and the old one is reachable from the
    registry no more (when the name was its only key). *)
Theorem register_same_name_keeps_old_listener (env : Env) (conn : Conn)
    (req : RegTunnelRequest) (s : Server) (told : TunnelPtr) :
  tunnels s !! req_Name req = Some told ->
  is_Some (heap s !! told) ->
  outOfRange (config.PortRange (Config s)) (req_RemotePort req) = false ->
  listen_err env (events s) (req_RemotePort req) = None ->
  exists tnew ln,
    let s' := handleRegisterTunnel env conn req s in
    tunnels s' !! req_Name req = Some tnew /\ tnew <> told /\
    heap s' !! tnew =
      Some {| Name := req_Name req; Protocol := req_Protocol req;
              RemotePort := req_RemotePort req; Listener_ := ln;
              ControlConn := conn; ActiveConns := 0 |} /\
    listeners s !! ln = None /\
    listeners s' !! ln = Some (req_RemotePort req, true) /\
    heap s' !! told = heap s !! told /\
    (forall l st, listeners s !! l = Some st -> listeners s' !! l = Some st) /\
    (forall l, EvListenerClose l ∈ events s' -> EvListenerClose l ∈ events s) /\
    ((forall n, tunnels s !! n = Some told -> n = req_Name req) ->
     forall n, tunnels s' !! n <> Some told).
Proof.
  intros Hold Hheap Hout Hbind.
  exists (fresh (dom (heap s))), (fresh (dom (listeners s))).
  unfold handleRegisterTunnel. rewrite Hout, Hbind. simpl.
  pose proof (fresh_heap_ne s told Hheap) as Hne.
  pose proof (fresh_listener_None s) as Hln.
  repeat split.
  - apply lookup_insert_eq.
  - exact Hne.
  - apply lookup_insert_eq.
  - exact Hln.
  - apply lookup_insert_eq.
  - by apply lookup_insert_ne.
  - intros l st Hl. rewrite lookup_insert_ne; [done|]. congruence.
  - intros l. rewrite !elem_of_app, !list_elem_of_singleton.
    intros [[[?|?]|?]|?]; [done|discriminate..].
  - intros Honly n Hn. destruct (decide (n = req_Name req)) as [->|Hn'].
    + rewrite lookup_insert_eq in Hn. congruence.
    + rewrite lookup_insert_ne in Hn by done. apply Honly in Hn. done.
Qed.

End Replace.

(** ** The relay: the handshake *)

Section Handshake.
Import protocol server.
Context {Raw : Type} `{Codec Raw}.

(** C4, as the relay does it.  When the first message is not an
    authenticate request the relay closes the connection and sends
    nothing; when it is one and its token differs from the configured
    token the relay sends the failure response and then closes the
    connection.  In both cases no tunnel is made and nothing else
    changes. *)
Theorem handshake_rejection (env : Env) (conn : Conn)
    (inbox : list (Decoded Raw)) (s : Server) (msg : Message Raw) :
  hd DecEOF inbox = DecMsg msg ->
  (Type_ msg <> TypeAuth ->
   events (handleControlConnection env conn inbox s) =
     events s ++ [EvClose conn] /\
   props.sameRegistries s (handleControlConnection env conn inbox s)) /\
  (forall req,
     Type_ msg = TypeAuth ->
     UnmarshalAuthRequest (Payload_ msg) = Some req ->
     Token req <> config.Token (Config s) ->
     events (handleControlConnection env conn inbox s) =
       events s ++
       [EvWrite conn TypeAuthResp props.authFailure
          (write_ok env (events s) conn);
        EvClose conn] /\
     props.sameRegistries s (handleControlConnection env conn inbox s)).
Proof.
  intros Hfirst. unfold handleControlConnection, handshake.
  rewrite Hfirst. split.
  - intros Hty. destruct (decide (Type_ msg <> TypeAuth)); [|done].
    split; [reflexivity|repeat split].
  - intros req Hty Hreq Htok.
    destruct (decide (Type_ msg <> TypeAuth)); [done|]. rewrite Hreq.
    destruct (decide (Token req <> config.Token (Config s))); [|done].
    simpl. split; [by rewrite <- app_assoc|repeat split].
Qed.

End Handshake.

(** ** The relay: pending connections *)

Section Pending.
Import protocol server.

Lemma deref_alter_fields (s : Server) (t : TunnelPtr) (d : Z)
    (m : gmap string PendingConn) :
  Name (deref (set_pendingConns m (AddInt64 t d s)) t) = Name (deref s t) /\
  ControlConn (deref (set_pendingConns m (AddInt64 t d s)) t) =
    ControlConn (deref s t).
Proof.
  unfold deref; simpl. rewrite lookup_alter_eq.
  by destruct (heap s !! t).
Qed.

(** The notification went out: the entry stays and the expiry is armed. *)
Lemma handlePublicConnection_notified (env : Env) (t : TunnelPtr)
    (publicConn : Conn) (now : Z) (s : Server) :
  write_ok env (events s) (ControlConn (deref s t)) = true ->
  handlePublicConnection env t publicConn now s =
  {| Config := Config s; tunnels := tunnels s;
     pendingConns :=
       <[fmt.Sprintd now := {| Conn_ := publicConn; Tunnel_ := t |}]>
         (pendingConns s);
     heap := alter (addActive 1) t (heap s);
     listeners := listeners s;
     events :=
       events s ++
       [EvWrite (ControlConn (deref s t)) TypeNewConn
          (PNewConnRequest
             {| nc_ConnID := fmt.Sprintd now;
                nc_TunnelName := Name (deref s t) |}) true;
        EvAfterFunc (10 * Second) (fmt.Sprintd now)] |}.
Proof.
  intros Hok. unfold handlePublicConnection, WriteMessage.
  cbv zeta.
  rewrite (proj1 (deref_alter_fields s t 1 _)),
    (proj2 (deref_alter_fields s t 1 _)).
  simpl events. rewrite Hok. unfold emit; simpl. by rewrite <- app_assoc.
Qed.

(** The notification failed: the entry is taken back, the public
    connection closed, the counter decremented, and no expiry is armed. *)
Lemma handlePublicConnection_rollback (env : Env) (t : TunnelPtr)
    (publicConn : Conn) (now : Z) (s : Server) :
  write_ok env (events s) (ControlConn (deref s t)) = false ->
  handlePublicConnection env t publicConn now s =
  {| Config := Config s; tunnels := tunnels s;
     pendingConns := delete (fmt.Sprintd now) (pendingConns s);
     heap := alter (addActive (-1)) t (alter (addActive 1) t (heap s));
     listeners := listeners s;
     events :=
       events s ++
       [EvWrite (ControlConn (deref s t)) TypeNewConn
          (PNewConnRequest
             {| nc_ConnID := fmt.Sprintd now;
                nc_TunnelName := Name (deref s t) |}) false;
        EvClose publicConn] |}.
Proof.
  intros Hok. unfold handlePublicConnection, WriteMessage.
  cbv zeta.
  rewrite (proj1 (deref_alter_fields s t 1 _)),
    (proj2 (deref_alter_fields s t 1 _)).
  simpl events. rewrite Hok. unfold emit, AddInt64, set_pendingConns; simpl.
  by rewrite <- app_assoc, delete_insert_eq.
Qed.

Lemma expire_present (id : string) (pc : PendingConn) (s : Server) :
  pendingConns s !! id = Some pc ->
  expire id s =
  {| Config := Config s; tunnels := tunnels s;
     pendingConns := delete id (pendingConns s);
     heap := alter (addActive (-1)) (Tunnel_ pc) (heap s);
     listeners := listeners s;
     events := events s ++ [EvClose (Conn_ pc)] |}.
Proof. intros Hpc. unfold expire. by rewrite Hpc. Qed.

Lemma expire_absent (id : string) (s : Server) :
  pendingConns s !! id = None -> expire id s = s.
Proof. intros Hpc. unfold expire. by rewrite Hpc. Qed.

Lemma expire_idem (id : string) (s : Server) :
  expire id (expire id s) = expire id s.
Proof.
  destruct (pendingConns s !! id) as [pc|] eqn:Hpc.
  - rewrite (expire_present id pc s Hpc). apply expire_absent. simpl.
    apply lookup_delete_eq.
  - by rewrite !(expire_absent id s Hpc).
Qed.

Lemma wrap64_small (z : Z) : - 2 ^ 63 <= z < 2 ^ 63 -> wrap64 z = z.
Proof.
  intros Hz. unfold wrap64. rewrite Z.mod_small; lia.
Qed.

Lemma wrap64_add (x d : Z) : wrap64 (wrap64 x + d) = wrap64 (x + d).
Proof.
  unfold wrap64. set (a := 2 ^ 63). set (b := 2 ^ 64). f_equal.
  replace ((x + a) mod b - a + d + a) with ((x + a) mod b + d) by lia.
  rewrite Zplus_mod_idemp_l. f_equal. lia.
Qed.

(** A decrement undoes the increment before it. *)
Lemma addActive_back (tun : Tunnel) :
  - 2 ^ 63 <= ActiveConns tun < 2 ^ 63 ->
  addActive (-1) (addActive 1 tun) = tun.
Proof.
  intros Hrange. destruct tun as [n p r l c a]; unfold addActive; simpl in *.
  f_equal. rewrite wrap64_add.
  replace (a + 1 + -1) with a by lia. by apply wrap64_small.
Qed.

Lemma heap_back (t : TunnelPtr) (tun : Tunnel) (h : gmap TunnelPtr Tunnel) :
  h !! t = Some tun ->
  - 2 ^ 63 <= ActiveConns tun < 2 ^ 63 ->
  alter (addActive (-1)) t (alter (addActive 1) t h) = h.
Proof.
  intros Ht Hrange. rewrite alter_alter_eq. apply alter_id.
  intros x Hx. rewrite Ht in Hx. injection Hx as <-. simpl.
  by apply addActive_back.
Qed.

(** C5, as the relay does it.  The accept counts the connection and enters
    it in the registry; the 10-second expiry is armed exactly when the
    notification went out.  When the notification failed the entry is taken
    back at once, the public connection closed and the counter of the
    tunnel decremented, which takes it back to what it was before the
    accept, and no expiry is armed.  The expiry function, run on an id still
    in the registry, removes the entry, closes its public connection and
    decrements the counter of its tunnel; run on an id that is absent it
    does nothing. *)
Theorem expiry_armed_and_fires (env : Env) (t : TunnelPtr)
    (publicConn : Conn) (now : Z) (s : Server) :
  (EvAfterFunc 10000000000 (fmt.Sprintd now)
     ∈ props.newEvents s (handlePublicConnection env t publicConn now s) <->
   write_ok env (events s) (ControlConn (deref s t)) = true) /\
  (write_ok env (events s) (ControlConn (deref s t)) = true ->
   pendingConns (handlePublicConnection env t publicConn now s)
     !! fmt.Sprintd now = Some {| Conn_ := publicConn; Tunnel_ := t |} /\
   heap (handlePublicConnection env t publicConn now s) =
     alter (addActive 1) t (heap s) /\
   forall tun,
     heap s !! t = Some tun ->
     ActiveConns <$> heap (handlePublicConnection env t publicConn now s) !! t
     = Some (wrap64 (ActiveConns tun + 1))) /\
  (write_ok env (events s) (ControlConn (deref s t)) = false ->
   pendingConns (handlePublicConnection env t publicConn now s)
     !! fmt.Sprintd now = None /\
   EvClose publicConn
     ∈ props.newEvents s (handlePublicConnection env t publicConn now s) /\
   heap (handlePublicConnection env t publicConn now s) =
     alter (addActive (-1)) t (alter (addActive 1) t (heap s)) /\
   (forall tun,
      heap s !! t = Some tun ->
      ActiveConns <$> heap (handlePublicConnection env t publicConn now s) !! t
      = Some (wrap64 (wrap64 (ActiveConns tun + 1) - 1)) /\
      (- 2 ^ 63 <= ActiveConns tun < 2 ^ 63 ->
       heap (handlePublicConnection env t publicConn now s) = heap s)) /\
   forall d id,
     EvAfterFunc d id
       ∉ props.newEvents s (handlePublicConnection env t publicConn now s)) /\
  (forall id pc,
     pendingConns s !! id = Some pc ->
     pendingConns (expire id s) !! id = None /\
     props.newEvents s (expire id s) = [EvClose (Conn_ pc)] /\
     heap (expire id s) = alter (addActive (-1)) (Tunnel_ pc) (heap s) /\
     forall tun,
       heap s !! Tunnel_ pc = Some tun ->
       ActiveConns <$> heap (expire id s) !! Tunnel_ pc =
       Some (wrap64 (ActiveConns tun - 1))) /\
  (forall id, pendingConns s !! id = None -> expire id s = s).
Proof.
  unfold props.newEvents. split; [|split; [|split; [|split]]].
  - destruct (write_ok env (events s) (ControlConn (deref s t))) eqn:Hok.
    + rewrite (handlePublicConnection_notified env t publicConn now s Hok).
      simpl. rewrite drop_app_length. split; [done|]. intros _.
      rewrite !elem_of_cons. right; by left.
    + rewrite (handlePublicConnection_rollback env t publicConn now s Hok).
      simpl. rewrite drop_app_length. split; [|done].
      rewrite !elem_of_cons, elem_of_nil. intros [?|[?|[]]]; discriminate.
  - intros Hok.
    rewrite (handlePublicConnection_notified env t publicConn now s Hok).
    simpl. split; [apply lookup_insert_eq|]. split; [done|].
    intros tun Htun. by rewrite lookup_alter_eq, Htun.
  - intros Hok.
    rewrite (handlePublicConnection_rollback env t publicConn now s Hok).
    simpl. rewrite drop_app_length. split; [apply lookup_delete_eq|].
    split; [rewrite !elem_of_cons; right; by left|].
    split; [done|]. split.
    + intros tun Htun. split.
      * by rewrite !lookup_alter_eq, Htun.
      * intros Hrange. by apply (heap_back t tun).
    + intros d id. rewrite !elem_of_cons, elem_of_nil.
      intros [?|[?|[]]]; discriminate.
  - intros id pc Hpc. rewrite (expire_present id pc s Hpc). simpl.
    split; [apply lookup_delete_eq|]. split; [apply drop_app_length|].
    split; [done|]. intros tun Htun. by rewrite lookup_alter_eq, Htun.
  - intros id Hid. by apply expire_absent.
Qed.

(** C2, at two accepts that read the same clock.  Both notifications carry
    the same id; the registry holds the second connection only; once both
    expiries have fired the second connection is closed and the first never
    is. *)
Theorem connID_collision (t1 t2 : TunnelPtr) (c1 c2 : Conn) (now : Z)
    (s : Server) :
  let s1 := handlePublicConnection examples.okEnv t1 c1 now s in
  let s2 := handlePublicConnection examples.okEnv t2 c2 now s1 in
  props.newEvents s s2 =
    [EvWrite (ControlConn (deref s t1)) TypeNewConn
       (PNewConnRequest
          {| nc_ConnID := fmt.Sprintd now;
             nc_TunnelName := Name (deref s t1) |}) true;
     EvAfterFunc (10 * Second) (fmt.Sprintd now);
     EvWrite (ControlConn (deref s1 t2)) TypeNewConn
       (PNewConnRequest
          {| nc_ConnID := fmt.Sprintd now;
             nc_TunnelName := Name (deref s1 t2) |}) true;
     EvAfterFunc (10 * Second) (fmt.Sprintd now)] /\
  pendingConns s2 =
    <[fmt.Sprintd now := {| Conn_ := c2; Tunnel_ := t2 |}]> (pendingConns s) /\
  props.newEvents s2 (expire (fmt.Sprintd now) (expire (fmt.Sprintd now) s2))
    = [EvClose c2].
Proof.
  intros s1 s2. unfold s2, s1, props.newEvents.
  rewrite !handlePublicConnection_notified by reflexivity.
  simpl. repeat split.
  - rewrite <- app_assoc. by rewrite drop_app_length.
  - apply insert_insert_eq.
  - rewrite expire_idem.
    rewrite (expire_present _ {| Conn_ := c2; Tunnel_ := t2 |})
      by (simpl; apply lookup_insert_eq).
    simpl. by rewrite drop_app_length.
Qed.

End Pending.

(** ** The relay: claim against expiry *)

Section Race.
Import server race raceinv.
Variables (clientConn : Conn) (id : string) (s0 : Server) (pc0 : PendingConn).
Hypothesis Hpc0 : pendingConns s0 !! id = Some pc0.

Lemma replay_snoc (tr : list (Tid * Action)) (t : Tid) (a : Action)
    (s : Server) :
  replay (tr ++ [(t, a)]) s = apply a (replay tr s).
Proof. unfold replay. by rewrite fold_left_app. Qed.

Lemma lookup_claimTrace (k : nat) :
  pendingConns (replay (take k (claimTrace clientConn id pc0)) s0) !! id =
  match k with O => Some pc0 | _ => None end.
Proof.
  destruct k as [|[|[|[|k]]]]; simpl; rewrite ?take_nil; simpl;
    try exact Hpc0; apply lookup_delete_eq.
Qed.

Lemma lookup_expireTrace (k : nat) :
  pendingConns (replay (take k (expireTrace id pc0)) s0) !! id =
  match k with O | 1%nat => Some pc0 | _ => None end.
Proof.
  destruct k as [|[|[|[|k]]]]; simpl; rewrite ?take_nil; simpl;
    try exact Hpc0; apply lookup_delete_eq.
Qed.

Lemma start_inv : Inv clientConn id s0 pc0 (start s0).
Proof. split; [reflexivity..|]. apply ph_none; auto. Qed.

Ltac inv_close :=
  split; simpl;
  [ rewrite ?replay_snoc; reflexivity
  | reflexivity
  | first [ by (apply ph_none; simpl; auto)
          | by (eapply ph_claim; [constructor|constructor|reflexivity])
          | by (eapply ph_expire; [constructor|constructor|reflexivity]) ] ].

Ltac inv_step Hmu Hstep t :=
  unfold muOf in Hmu; simpl in Hmu; try discriminate Hmu;
  injection Hmu as <-;
  destruct t; unfold step, stepClaim, stepExpire in Hstep; simpl in Hstep;
  rewrite ?lookup_delete_eq, ?Hpc0 in Hstep;
  try discriminate Hstep; injection Hstep as <-; inv_close.

Lemma step_inv (t : Tid) (r r' : Racing) :
  Inv clientConn id s0 pc0 r ->
  step clientConn id t r = Some r' ->
  Inv clientConn id s0 pc0 r'.
Proof.
  intros [Hsrv Hmu Hph] Hstep.
  destruct r as [sv mu c e tr]; simpl in *; subst sv.
  destruct Hph as [Hc He Htr|k Hc He Htr|k He Hc Htr]; simpl in *; subst tr.
  - destruct Hc as [-> | ->], He as [-> | ->]; inv_step Hmu Hstep t.
  - inversion Hc; inversion He; subst; inv_step Hmu Hstep t.
  - inversion Hc; inversion He; subst; inv_step Hmu Hstep t.
Qed.

Lemma run_inv (sched : list Tid) (r : Racing) :
  Inv clientConn id s0 pc0 r ->
  Inv clientConn id s0 pc0 (run clientConn id sched r).
Proof.
  revert r; induction sched as [|t sched IH]; intros r Hr; simpl; [done|].
  apply IH. destruct (step clientConn id t r) as [r'|] eqn:Hstep; simpl.
  - by apply (step_inv t r).
  - exact Hr.
Qed.

(** In every state the race reaches, a goroutine that deletes the entry
    holds the mutex and finds the entry still there. *)
Lemma delete_under_lock (t : Tid) (r r' : Racing) :
  Inv clientConn id s0 pc0 r ->
  step clientConn id t r = Some r' ->
  trace r' = trace r ++ [(t, ADelete id)] ->
  pendingMu r = Some t /\ pendingConns (srv r) !! id = Some pc0.
Proof.
  intros [Hsrv Hmu Hph] Hstep Htrace.
  destruct r as [sv mu c e tr]; simpl in *; subst sv.
  destruct Hph as [Hc He Htr|k Hc He Htr|k He Hc Htr]; simpl in *; subst tr.
  - destruct Hc as [-> | ->], He as [-> | ->];
      unfold muOf in Hmu; simpl in Hmu; try discriminate Hmu;
      injection Hmu as <-;
      destruct t; unfold step, stepClaim, stepExpire in Hstep;
      simpl in Hstep; rewrite ?Hpc0 in Hstep; try discriminate Hstep;
      injection Hstep as <-; simpl in Htrace; discriminate Htrace.
  - inversion Hc; inversion He; subst;
      unfold muOf in Hmu; simpl in Hmu; try discriminate Hmu;
      injection Hmu as <-;
      destruct t; unfold step, stepClaim, stepExpire in Hstep;
      simpl in Hstep; rewrite ?lookup_delete_eq, ?Hpc0 in Hstep;
      try discriminate Hstep; injection Hstep as <-; simpl in Htrace;
      try discriminate Htrace; by split.
  - inversion Hc; inversion He; subst;
      unfold muOf in Hmu; simpl in Hmu; try discriminate Hmu;
      injection Hmu as <-;
      destruct t; unfold step, stepClaim, stepExpire in Hstep;
      simpl in Hstep; rewrite ?lookup_delete_eq, ?Hpc0 in Hstep;
      try discriminate Hstep; injection Hstep as <-; simpl in Htrace;
      try discriminate Htrace; by split.
Qed.

Lemma count_claimTrace (k : nat) (t : Tid) :
  (countBy t (isDelete id) (take k (claimTrace clientConn id pc0)) <= 1 /\
   countBy t (isClose (Conn_ pc0)) (take k (claimTrace clientConn id pc0))
     <= 1 /\
   countBy t (isDecr (Tunnel_ pc0)) (take k (claimTrace clientConn id pc0))
     <= 1)%nat /\
  countBy TExpire (isDelete id) (take k (claimTrace clientConn id pc0)) = 0%nat
  /\ countBy TExpire (isClose (Conn_ pc0))
       (take k (claimTrace clientConn id pc0)) = 0%nat
  /\ countBy TExpire (isDecr (Tunnel_ pc0))
       (take k (claimTrace clientConn id pc0)) = 0%nat.
Proof.
  unfold countBy, isDelete, isClose, isDecr.
  destruct t, k as [|[|[|[|k]]]]; simpl; rewrite ?take_nil; simpl;
    rewrite ?bool_decide_eq_true_2 by done; simpl; lia.
Qed.

Lemma count_expireTrace (k : nat) (t : Tid) :
  (countBy t (isDelete id) (take k (expireTrace id pc0)) <= 1 /\
   countBy t (isClose (Conn_ pc0)) (take k (expireTrace id pc0)) <= 1 /\
   countBy t (isDecr (Tunnel_ pc0)) (take k (expireTrace id pc0)) <= 1)%nat /\
  countBy TClaim (isDelete id) (take k (expireTrace id pc0)) = 0%nat /\
  countBy TClaim (isClose (Conn_ pc0)) (take k (expireTrace id pc0)) = 0%nat
  /\ countBy TClaim (isDecr (Tunnel_ pc0)) (take k (expireTrace id pc0))
     = 0%nat.
Proof.
  unfold countBy, isDelete, isClose, isDecr.
  destruct t, k as [|[|[|[|k]]]]; simpl; rewrite ?take_nil; simpl;
    rewrite ?bool_decide_eq_true_2 by done; simpl; lia.
Qed.

Lemma replay_claimTrace :
  replay (claimTrace clientConn id pc0) s0 =
  handleProxyData clientConn {| protocol.pd_ConnID := id |} s0.
Proof. unfold handleProxyData; simpl. by rewrite Hpc0. Qed.

Lemma replay_expireTrace : replay (expireTrace id pc0) s0 = expire id s0.
Proof. unfold expire. by rewrite Hpc0. Qed.

Lemma run_cons (t : Tid) (sched : list Tid) (r : Racing) :
  run clientConn id (t :: sched) r =
  run clientConn id sched (default r (step clientConn id t r)).
Proof. reflexivity. Qed.

Lemma pendingConns_apply_delete (s : Server) :
  pendingConns (apply (ADelete id) s) = delete id (pendingConns s).
Proof. reflexivity. Qed.

Lemma pendingConns_apply_other (a : Action) (s : Server) :
  (forall i, a <> ADelete i) ->
  pendingConns (apply a s) = pendingConns s.
Proof. destruct a; intros Ha; [by destruct (Ha id0)|reflexivity..]. Qed.

(** Either outcome is reached: the claim before the expiry, and the expiry
    before the claim, both run to their ends. *)
Lemma race_outcomes_reachable :
  (let r := run clientConn id
              (repeat TClaim 9 ++ repeat TExpire 4) (start s0) in
   claim r = CDone /\ expiry r = EDone /\
   trace r = claimTrace clientConn id pc0) /\
  (let r := run clientConn id
              (repeat TExpire 6 ++ repeat TClaim 6) (start s0) in
   claim r = CDone /\ expiry r = EDone /\ trace r = expireTrace id pc0).
Proof.
  unfold start.
  split; cbn [repeat app];
    repeat (rewrite run_cons;
            cbv [default from_option Datatypes.id step stepClaim stepExpire
                 claim expiry pendingMu srv trace set_claim set_mu
                 set_expiry act];
            rewrite ?pendingConns_apply_delete, ?pendingConns_apply_other,
              ?lookup_delete_eq, ?Hpc0 by done;
            cbv iota beta);
    cbn [run claim expiry trace]; done.
Qed.

(** C1. Claim and expiry of the same id, in any interleaving of their
    statements: the entry is deleted, the public connection closed and the
    counter decremented at most once each, counting both goroutines; a
    goroutine deletes the entry only while it holds the mutex and the entry
    is still there; and when both have returned exactly one of them has
    done the whole cleanup, which is then the cleanup of that path run
    alone. *)
Theorem claim_expiry_single_cleanup (sched : list Tid) :
  let r := run clientConn id sched (start s0) in
  ((countBy TClaim (isDelete id) (trace r) +
    countBy TExpire (isDelete id) (trace r) <= 1) /\
   (countBy TClaim (isClose (Conn_ pc0)) (trace r) +
    countBy TExpire (isClose (Conn_ pc0)) (trace r) <= 1) /\
   (countBy TClaim (isDecr (Tunnel_ pc0)) (trace r) +
    countBy TExpire (isDecr (Tunnel_ pc0)) (trace r) <= 1))%nat /\
  (forall t r',
     step clientConn id t r = Some r' ->
     trace r' = trace r ++ [(t, ADelete id)] ->
     pendingMu r = Some t /\ pendingConns (srv r) !! id = Some pc0) /\
  (claim r = CDone -> expiry r = EDone ->
   (trace r = claimTrace clientConn id pc0 /\
    srv r = handleProxyData clientConn {| protocol.pd_ConnID := id |} s0) \/
   (trace r = expireTrace id pc0 /\ srv r = expire id s0)).
Proof.
  intros r. pose proof (run_inv sched (start s0) start_inv) as Hinv.
  fold r in Hinv. split; [|split].
  - destruct Hinv as [_ _ [_ _ ->|k _ _ ->|k _ _ ->]].
    + unfold countBy; simpl. lia.
    + pose proof (count_claimTrace k TClaim). lia.
    + pose proof (count_expireTrace k TExpire). lia.
  - intros t r'. by apply delete_under_lock.
  - intros Hc He. destruct Hinv as [Hsrv _ [[Hc'|Hc'] _ _|k Hw _ Htr|k Hw _ Htr]].
    + congruence.
    + congruence.
    + left. rewrite Hc in Hw. inversion Hw; subst k.
      rewrite Hsrv, Htr. simpl. split; [done|apply replay_claimTrace].
    + right. rewrite He in Hw. inversion Hw; subst k.
      rewrite Hsrv, Htr. simpl. split; [done|apply replay_expireTrace].
Qed.

End Race.



(** ** The agent *)

Section Agent.
Import protocol client.
Context {Raw : Type} `{Codec Raw}.

Lemma registerTunnel_log (conn : Conn) (t : config.Tunnel) (w : Wire Raw) :
  exists seg,
    events (snd (registerTunnel conn t w)) = events w ++ seg /\
    props.exchange conn t seg.
Proof.
  unfold registerTunnel, WriteMessage, Decode, props.exchange.
  destruct (hd false (outcomes w)); simpl.
  - eexists; split; [|right; reflexivity].
    destruct (hd DecEOF (inbox w)) as [msg| |]; simpl;
      [|by rewrite <- app_assoc..].
    destruct (decide _); simpl; [by rewrite <- app_assoc|].
    destruct (UnmarshalRegTunnelResponse _) as [resp|]; simpl;
      [|by rewrite <- app_assoc].
    destruct (resp_Success resp); simpl; by rewrite <- app_assoc.
  - eexists; split; [reflexivity|by left].
Qed.

Lemma registerTunnels_log (conn : Conn) (ts : list config.Tunnel)
    (w : Wire Raw) :
  exists segs,
    events (snd (registerTunnels conn ts w)) = events w ++ concat segs /\
    Forall2 (props.exchange conn) ts segs.
Proof.
  revert w; induction ts as [|t ts IH]; intros w; simpl.
  - exists []. simpl. by rewrite app_nil_r.
  - destruct (registerTunnel_log conn t w) as (seg & Hseg & Hex).
    destruct (registerTunnel conn t w) as [err w1]; simpl in Hseg.
    destruct (IH w1) as (segs & Hsegs & Hall).
    destruct (registerTunnels conn ts w1) as [done w2]; simpl in *.
    exists (seg :: segs). split; [|by constructor].
    simpl. by rewrite Hsegs, Hseg, <- app_assoc.
Qed.

Lemma regWrites_exchanges (conn : Conn) (ts : list config.Tunnel)
    (segs : list (list Event)) :
  Forall2 (props.exchange conn) ts segs ->
  props.regWrites (concat segs) = map regRequest ts.
Proof.
  induction 1 as [|t seg ts segs Hex _ IH]; [done|].
  simpl. unfold props.regWrites in *. rewrite flat_map_app, IH.
  by destruct Hex as [-> | ->].
Qed.

(** The registration succeeded exactly when the request went out and a
    register-tunnel response reporting success came back. *)
Lemma registerTunnel_None (conn : Conn) (t : config.Tunnel) (w : Wire Raw) :
  fst (registerTunnel conn t w) = None <-> props.registrationSucceeds w.
Proof.
  unfold registerTunnel, WriteMessage, Decode, props.registrationSucceeds.
  destruct (hd false (outcomes w)); simpl; [|by split; [|intros []]].
  destruct (hd DecEOF (inbox w)) as [msg| |]; simpl;
    [|split; [done|by intros (_ & ? & ? & ? & _)]..].
  destruct (decide (Type_ msg <> TypeRegResp)) as [Hty|Hty]; simpl.
  { split; [done|]. intros (_ & m & r & [= <-] & ? & _). done. }
  apply dec_stable in Hty.
  destruct (UnmarshalRegTunnelResponse (Payload_ msg)) as [resp|] eqn:Hresp;
    simpl.
  - destruct (resp_Success resp) eqn:Hok; simpl.
    + split; [|done]. intros _. split; [done|]. by exists msg, resp.
    + split; [done|]. intros (_ & m & r & [= <-] & _ & Hr & Hs). congruence.
  - split; [done|]. intros (_ & m & r & [= <-] & _ & Hr & _). congruence.
Qed.

(** C7. Once the authentication has succeeded, [Start] runs one exchange
    per configured tunnel, in the order of the list: the request of a
    tunnel, then (when the request went out) the read of its response,
    before the request of the next.  Whatever each exchange returns, every
    tunnel of the list gets its exchange, and [Start] goes on to start the
    heartbeat and to read: the session is not terminated. *)
Theorem registration_continues_past_failures (c : Client) (cn : Conn)
    (w : Wire Raw) :
  fst (authenticate (config.cli_Token (Config c)) cn w) = None ->
  exists segs sess,
    Start c (Some cn) w = inr sess /\
    Forall2 (props.exchange cn) (config.Tunnels (Config c)) segs /\
    props.regWrites (concat segs) =
      map regRequest (config.Tunnels (Config c)) /\
    events (wire sess) =
      events (snd (authenticate (config.cli_Token (Config c)) cn w)) ++
      concat segs ++ [EvGoHeartbeat cn (10 * Second)] /\
    startRunning sess = true /\ heartbeatRunning sess = true /\
    result sess = None /\
    connected (cli sess) = true /\ controlConn (cli sess) = Some cn.
Proof.
  intros Hauth. unfold Start.
  destruct (authenticate (config.cli_Token (Config c)) cn w) as [err w1].
  simpl in Hauth; subst err.
  destruct (registerTunnels_log cn (config.Tunnels (Config c)) w1)
    as (segs & Hsegs & Hall).
  destruct (registerTunnels cn (config.Tunnels (Config c)) w1) as [done w2].
  simpl in Hsegs. exists segs. eexists. split; [reflexivity|].
  split; [exact Hall|]. split; [by apply regWrites_exchanges with cn|].
  simpl. rewrite Hsegs. by rewrite <- app_assoc.
Qed.

(** C8. [AddTunnel] with the name of a configured tunnel returns an error,
    writes nothing, and the dashboard handler leaves the tunnel list as it
    is.  With a fresh name on an agent that is connected, [AddTunnel] runs
    the register-tunnel exchange on the control connection and returns no
    error exactly when that registration succeeded. *)
Theorem AddTunnel_duplicate_and_live (c : Client) (t : config.Tunnel)
    (w : Wire Raw) :
  (config.Name t ∈ map config.Name (config.Tunnels (Config c)) ->
   AddTunnel c t w =
     (Some (errors.Errorf
              ("tunnel name " +:+ config.Name t +:+ " already exists")), w)
   /\ web.handleTunnelsPost c t w = (500, c, w)) /\
  (forall cn,
     config.Name t ∉ map config.Name (config.Tunnels (Config c)) ->
     connected c = true -> controlConn c = Some cn ->
     AddTunnel c t w = registerTunnel cn t w /\
     (exists seg,
        events (snd (AddTunnel c t w)) = events w ++ seg /\
        props.exchange cn t seg) /\
     (fst (AddTunnel c t w) = None <-> props.registrationSucceeds w)).
Proof.
  assert (Hdup :
    existsb (fun e => String.eqb (config.Name e) (config.Name t))
      (config.Tunnels (Config c)) = true <->
    config.Name t ∈ map config.Name (config.Tunnels (Config c))).
  { rewrite existsb_exists, list_elem_of_In, in_map_iff.
    split; intros (e & He1 & He2); exists e.
    - by apply String.eqb_eq in He2.
    - split; [done|]. by apply String.eqb_eq. }
  split.
  - intros Hin. apply Hdup in Hin.
    unfold web.handleTunnelsPost, AddTunnel. by rewrite Hin.
  - intros cn Hfresh Hconn Hcc.
    assert (AddTunnel c t w = registerTunnel cn t w) as ->.
    { unfold AddTunnel. rewrite Hconn, Hcc.
      destruct (existsb _ _) eqn:Hex; [|done].
      exfalso. apply Hfresh. by apply Hdup. }
    split; [done|]. split; [apply registerTunnel_log|].
    apply registerTunnel_None.
Qed.

(** C6, as the agent does it.  [Start] starts the heartbeat with a period
    of 10 seconds; a tick writes a ping on the control connection; a ping
    that cannot be written ends the heartbeat goroutine and nothing else:
    the client, the connection and the read loop of [Start] are as before,
    and the connection is not closed.  A turn of the read loop ends the
    session exactly when its read returns no message. *)
Theorem heartbeat_failure_ends_heartbeat_only (s : Session) :
  (forall c dial w sess,
     Start c dial w = inr sess ->
     last (events (wire sess)) = Some (EvGoHeartbeat (conn sess) 10000000000)
     /\ heartbeatRunning sess = true) /\
  (forall cur,
     heartbeatRunning s = true -> controlConn (cli s) = Some cur ->
     events (wire (heartbeatTick s)) =
       events (wire s) ++
       [EvWrite cur TypePing PNil (hd false (outcomes (wire s)))] /\
     heartbeatRunning (heartbeatTick s) = hd false (outcomes (wire s))) /\
  cli (heartbeatTick s) = cli s /\ conn (heartbeatTick s) = conn s /\
  startRunning (heartbeatTick s) = startRunning s /\
  result (heartbeatTick s) = result s /\
  inbox (wire (heartbeatTick s)) = inbox (wire s) /\
  (forall cn, EvClose cn ∈ @events Raw (wire (heartbeatTick s)) ->
              EvClose cn ∈ @events Raw (wire s)) /\
  (startRunning s = true ->
   (startRunning (readStep s) = false <->
    forall msg, hd DecEOF (inbox (wire s)) <> DecMsg msg)).
Proof.
  assert (Htick :
    cli (heartbeatTick s) = cli s /\ conn (heartbeatTick s) = conn s /\
    startRunning (heartbeatTick s) = startRunning s /\
    result (heartbeatTick s) = result s /\
    inbox (wire (heartbeatTick s)) = inbox (wire s) /\
    (forall cn, EvClose cn ∈ @events Raw (wire (heartbeatTick s)) ->
                EvClose cn ∈ @events Raw (wire s))).
  { unfold heartbeatTick. destruct (heartbeatRunning s); [|done].
    destruct (controlConn (cli s)); [|done]. simpl.
    do 5 (split; [reflexivity|]). intros cn.
    rewrite elem_of_app, list_elem_of_singleton. by intros [?|?]. }
  destruct Htick as (H1 & H2 & H3 & H4 & H5 & H6).
  split; [|split; [|do 6 (split; [assumption|])]].
  - intros c dial w sess. unfold Start. destruct dial as [cn|]; [|done].
    destruct (authenticate _ _ _) as [[e|] w1]; [done|].
    destruct (registerTunnels _ _ _) as [done w2].
    intros [= <-]. simpl. by rewrite last_snoc.
  - intros cur Hrun Hcur. unfold heartbeatTick. by rewrite Hrun, Hcur.
  - intros Hrun. unfold readStep, Decode. rewrite Hrun. simpl.
    destruct (hd DecEOF (inbox (wire s))) as [msg| |]; simpl;
      [|by split..].
    split.
    + intros Hstop; exfalso. destruct (decide _); [|done].
      by destruct (UnmarshalNewConnRequest _).
    + intros Hno. by destruct (Hno msg).
Qed.

End Agent.

(** ** The statements at concrete inputs *)

Section Instances.
Import protocol examples.

Lemma claim_expiry_single_cleanup_witness :
  let id := fmt.Sprintd clock in
  let r1 := race.run 9%nat id claimFirst (race.start relayPending) in
  let r2 := race.run 9%nat id expiryFirst (race.start relayPending) in
  server.pendingConns relayPending !! id = Some pendingWeb /\
  (race.trace r1 = raceinv.claimTrace 9%nat id pendingWeb /\
   race.srv r1 =
     server.handleProxyData 9%nat {| pd_ConnID := id |} relayPending) /\
  (race.trace r2 = raceinv.expireTrace id pendingWeb /\
   race.srv r2 = server.expire id relayPending).
Proof.
  intros id r1 r2.
  assert (Hpc : server.pendingConns relayPending !! id = Some pendingWeb)
    by (vm_compute; reflexivity).
  assert (Hc1 : race.claim r1 = race.CDone) by (vm_compute; reflexivity).
  assert (He1 : race.expiry r1 = race.EDone) by (vm_compute; reflexivity).
  assert (Hc2 : race.claim r2 = race.CDone) by (vm_compute; reflexivity).
  assert (He2 : race.expiry r2 = race.EDone) by (vm_compute; reflexivity).
  split; [exact Hpc|]. split.
  - destruct (proj2 (proj2 (claim_expiry_single_cleanup 9%nat id relayPending
                              pendingWeb Hpc claimFirst)) Hc1 He1)
      as [Hclaim|[Htr _]]; [exact Hclaim|].
    exfalso. vm_compute in Htr. discriminate Htr.
  - destruct (proj2 (proj2 (claim_expiry_single_cleanup 9%nat id relayPending
                              pendingWeb Hpc expiryFirst)) Hc2 He2)
      as [[Htr _]|Hexp]; [|exact Hexp].
    exfalso. vm_compute in Htr. discriminate Htr.
Defined.

Lemma register_port_range_witness :
  let s := server.NewServer (relayConfig "10000-10100") in
  props.bindAttempted 10080 s
    (server.handleRegisterTunnel okEnv 1%nat webRequest s) /\
  props.refused okEnv 1%nat lowRequest s
    (server.handleRegisterTunnel okEnv 1%nat lowRequest s).
Proof.
  intros s.
  assert (Hvalid : props.validRange (Some (10000, 10100)))
    by (unfold props.validRange, strconv.MaxInt; lia).
  assert (Hrange : config.PortRange (server.Config s) =
                   props.renderRange (Some (10000, 10100)))
    by reflexivity.
  split.
  - exact (register_port_range okEnv 1%nat webRequest s
             (Some (10000, 10100)) Hvalid Hrange).
  - exact (register_port_range okEnv 1%nat lowRequest s
             (Some (10000, 10100)) Hvalid Hrange).
Defined.

Lemma register_malformed_range_witness :
  let s1 := server.NewServer (relayConfig "10000") in
  let s2 := server.NewServer (relayConfig "a-b") in
  let s3 := server.NewServer (relayConfig "x-99999999999999999999y") in
  props.bindAttempted 9000 s1
    (server.handleRegisterTunnel okEnv 1%nat lowRequest s1) /\
  strconv.Atoi "a" = (0, Some strconv.ErrSyntax) /\
  strconv.Atoi "99999999999999999999y" =
    (strconv.MaxInt, Some strconv.ErrRange) /\
  props.refused okEnv 1%nat webRequest s2
    (server.handleRegisterTunnel okEnv 1%nat webRequest s2) /\
  props.bindAttempted 10080 s3
    (server.handleRegisterTunnel okEnv 1%nat webRequest s3).
Proof.
  intros s1 s2 s3. split; [|split; [|split; [|split]]].
  - apply (proj1 (register_malformed_range okEnv 1%nat lowRequest s1)).
    + discriminate.
    + simpl. discriminate.
  - apply (proj1 (proj2 (register_malformed_range okEnv 1%nat lowRequest s1))
             "a").
    reflexivity.
  - apply (proj1 (proj2 (register_malformed_range okEnv 1%nat lowRequest s1))
             "99999999999999999999y").
    reflexivity.
  - destruct (proj2 (proj2 (proj2 (register_malformed_range okEnv 1%nat
                                     webRequest s2))) "a" "b"
                eq_refl eq_refl eq_refl eq_refl eq_refl) as (Hrefused & _).
    apply Hrefused; [reflexivity|reflexivity|simpl; lia].
  - destruct (proj2 (proj2 (proj2 (register_malformed_range okEnv 1%nat
                                     webRequest s3))) "x"
                "99999999999999999999y"
                eq_refl eq_refl eq_refl eq_refl eq_refl) as (_ & Hbind & _).
    apply Hbind; [reflexivity|reflexivity|].
    simpl. unfold strconv.MaxInt. lia.
Defined.

(** A bound that is not a number and does not parse as 0: twenty digits
    overflow before the letter behind them is read, the bound counts as the
    largest [int], and the relay goes on to bind a port greater than 0. *)
Lemma non_numeric_bound_parses_as_MaxInt :
  let s := server.NewServer (relayConfig "x-99999999999999999999y") in
  strings.Split (config.PortRange (server.Config s)) "-" =
    ["x"; "99999999999999999999y"] /\
  props.isNumeric "x" = false /\
  props.isNumeric "99999999999999999999y" = false /\
  strconv.Atoi "99999999999999999999y" =
    (strconv.MaxInt, Some strconv.ErrRange) /\
  0 < req_RemotePort webRequest /\
  server.events (server.handleRegisterTunnel okEnv 1%nat webRequest s) =
    [server.EvListen 10080 (Some 0%nat);
     server.EvWrite 1%nat TypeRegResp
       (PRegTunnelResponse
          {| resp_Name := "web"; resp_Success := true;
             resp_RemotePort := 10080; resp_Error := EmptyString |}) true;
     server.EvGoAccept 0%nat] /\
  ~ props.refused okEnv 1%nat webRequest s
      (server.handleRegisterTunnel okEnv 1%nat webRequest s).
Proof.
  intros s. repeat split; try (vm_compute; reflexivity).
  intros (_ & _ & _ & _ & Hev). vm_compute in Hev. discriminate Hev.
Qed.

Lemma register_same_name_keeps_old_listener_witness :
  exists tnew ln,
    let s' := server.handleRegisterTunnel okEnv 2%nat webAgain relayWithWeb in
    server.tunnels s' !! "web" = Some tnew /\ tnew <> 0%nat /\
    server.heap s' !! tnew =
      Some {| server.Name := "web"; server.Protocol := "tcp";
              server.RemotePort := 10081; server.Listener_ := ln;
              server.ControlConn := 2%nat; server.ActiveConns := 0 |} /\
    server.listeners relayWithWeb !! ln = None /\
    server.listeners s' !! ln = Some (10081, true) /\
    server.heap s' !! 0%nat = server.heap relayWithWeb !! 0%nat /\
    (forall l st, server.listeners relayWithWeb !! l = Some st ->
                  server.listeners s' !! l = Some st) /\
    (forall l, server.EvListenerClose l ∈ server.events s' ->
               server.EvListenerClose l ∈ server.events relayWithWeb) /\
    ((forall n, server.tunnels relayWithWeb !! n = Some 0%nat -> n = "web") ->
     forall n, server.tunnels s' !! n <> Some 0%nat).
Proof.
  assert (Hold : server.tunnels relayWithWeb !! req_Name webAgain
                 = Some 0%nat) by (vm_compute; reflexivity).
  assert (Hheap : is_Some (server.heap relayWithWeb !! 0%nat))
    by (eexists; vm_compute; reflexivity).
  assert (Hout : server.outOfRange
                   (config.PortRange (server.Config relayWithWeb))
                   (req_RemotePort webAgain) = false)
    by (vm_compute; reflexivity).
  exact (register_same_name_keeps_old_listener okEnv 2%nat webAgain
           relayWithWeb 0%nat Hold Hheap Hout eq_refl).
Defined.

Lemma handshake_rejection_witness :
  let s := server.NewServer (relayConfig EmptyString) in
  server.events
    (server.handleControlConnection okEnv 5%nat [DecMsg pingMsg] s) =
    [server.EvClose 5%nat] /\
  server.events
    (server.handleControlConnection okEnv 5%nat [DecMsg (authMsg "wrong")] s)
    = [server.EvWrite 5%nat TypeAuthResp props.authFailure true;
       server.EvClose 5%nat].
Proof.
  intros s. split.
  - apply (proj1 (handshake_rejection okEnv 5%nat [DecMsg pingMsg] s pingMsg
                    eq_refl)).
    discriminate.
  - apply (proj2 (handshake_rejection okEnv 5%nat [DecMsg (authMsg "wrong")]
                    s (authMsg "wrong") eq_refl) {| Token := "wrong" |});
      [reflexivity|reflexivity|discriminate].
Defined.

(** The first message is a ping, not an authenticate request: the relay
    closes the connection and no failure response is sent. *)
Lemma handshake_non_auth_sends_no_failure :
  Type_ pingMsg <> TypeAuth /\
  ~ exists p ok,
      server.EvWrite 5%nat TypeAuthResp p ok
      ∈ server.events
          (server.handleControlConnection okEnv 5%nat [DecMsg pingMsg]
             (server.NewServer (relayConfig EmptyString))).
Proof.
  split; [discriminate|]. intros (p & ok & Hin).
  change (server.EvWrite 5%nat TypeAuthResp p ok ∈ [server.EvClose 5%nat])
    in Hin.
  apply list_elem_of_singleton in Hin. discriminate Hin.
Qed.

Lemma expiry_armed_and_fires_witness :
  let id := fmt.Sprintd clock in
  let failed :=
    server.handlePublicConnection deadEnv 0%nat 7%nat clock relayWithWeb in
  server.EvAfterFunc 10000000000 id
    ∈ props.newEvents relayWithWeb relayPending /\
  server.ActiveConns <$> server.heap relayPending !! 0%nat = Some 1 /\
  server.pendingConns failed !! id = None /\
  server.ActiveConns <$> server.heap failed !! 0%nat = Some 0 /\
  server.heap failed = server.heap relayWithWeb /\
  props.newEvents relayPending (server.expire id relayPending) =
    [server.EvClose 7%nat] /\
  server.expire "1" relayPending = relayPending.
Proof.
  intros id failed.
  pose (tun := {| server.Name := "web"; server.Protocol := "tcp";
                  server.RemotePort := 10080; server.Listener_ := 0%nat;
                  server.ControlConn := 1%nat; server.ActiveConns := 0 |}).
  assert (Htun : server.heap relayWithWeb !! 0%nat = Some tun)
    by (vm_compute; reflexivity).
  pose proof (expiry_armed_and_fires okEnv 0%nat 7%nat clock relayWithWeb)
    as (Harm & Hsent & _).
  pose proof (expiry_armed_and_fires deadEnv 0%nat 7%nat clock relayWithWeb)
    as (_ & _ & Hfail & _).
  pose proof (expiry_armed_and_fires okEnv 0%nat 7%nat clock relayPending)
    as (_ & _ & _ & Hfire & Hnone).
  destruct (Hfail eq_refl) as (Hgone & _ & _ & Hcount & _).
  destruct (Hcount tun Htun) as [Hback Hheap].
  split; [by apply Harm|].
  split; [exact (proj2 (proj2 (Hsent eq_refl)) tun Htun)|].
  split; [exact Hgone|]. split; [exact Hback|].
  split; [apply Hheap; simpl; lia|].
  split.
  - apply (Hfire id pendingWeb). vm_compute; reflexivity.
  - apply Hnone. vm_compute; reflexivity.
Defined.

(** The notification cannot be written: the public connection is accepted
    and no expiry is armed for it. *)
Lemma expiry_not_armed_when_notify_fails :
  server.write_ok deadEnv (server.events relayWithWeb)
    (server.ControlConn (server.deref relayWithWeb 0%nat)) = false /\
  ~ exists d id,
      server.EvAfterFunc d id
      ∈ props.newEvents relayWithWeb
          (server.handlePublicConnection deadEnv 0%nat 7%nat clock
             relayWithWeb).
Proof.
  split; [reflexivity|]. intros (d & id & Hin).
  assert (Hev :
    props.newEvents relayWithWeb
      (server.handlePublicConnection deadEnv 0%nat 7%nat clock relayWithWeb)
    = [server.EvWrite 1%nat TypeNewConn
         (PNewConnRequest
            {| nc_ConnID := "1700000000000000000";
               nc_TunnelName := "web" |}) false;
       server.EvClose 7%nat]) by (vm_compute; reflexivity).
  rewrite Hev in Hin. rewrite !elem_of_cons, elem_of_nil in Hin.
  destruct Hin as [Hin|[Hin|[]]]; discriminate Hin.
Qed.

Lemma heartbeat_failure_ends_heartbeat_only_witness :
  client.Start agent (Some 1%nat) agentWire = inr afterStart /\
  last (client.events (client.wire afterStart)) =
    Some (client.EvGoHeartbeat 1%nat 10000000000) /\
  client.events (client.wire (client.heartbeatTick afterStart)) =
    client.events (client.wire afterStart) ++
    [client.EvWrite 1%nat TypePing PNil false] /\
  client.heartbeatRunning (client.heartbeatTick afterStart) = false /\
  client.startRunning (client.heartbeatTick afterStart) = true /\
  client.cli (client.heartbeatTick afterStart) = connectedAgent.
Proof.
  assert (Hstart : client.Start agent (Some 1%nat) agentWire = inr afterStart)
    by (vm_compute; reflexivity).
  pose proof (heartbeat_failure_ends_heartbeat_only afterStart)
    as (Hgo & Htick & Hcli & _ & Hrun & _).
  split; [exact Hstart|].
  split; [exact (proj1 (Hgo agent (Some 1%nat) agentWire afterStart Hstart))|].
  destruct (Htick 1%nat eq_refl eq_refl) as [Hev Hhb].
  split; [exact Hev|]. split; [exact Hhb|]. split; [exact Hrun|exact Hcli].
Defined.

(** The ping cannot be written: the heartbeat ends, the session does not;
    the agent is still connected, its connection is not closed, and the
    notification that arrives next is served. *)
Lemma failed_ping_leaves_session_running :
  let s1 := client.sessionRun [client.Tick] afterStart in
  let s2 := client.sessionRun [client.Tick; client.Readable] afterStart in
  client.Start agent (Some 1%nat) agentWire = inr afterStart /\
  (client.EvWrite 1%nat TypePing PNil false
     ∈ client.events (client.wire s1)) /\
  client.heartbeatRunning s1 = false /\
  client.startRunning s1 = true /\ client.result s1 = None /\
  client.connected (client.cli s1) = true /\
  client.controlConn (client.cli s1) = Some 1%nat /\
  (client.EvClose 1%nat ∉ client.events (client.wire s1)) /\
  client.startRunning s2 = true /\
  last (client.events (client.wire s2)) =
    Some (client.EvGoNewConn
            {| nc_ConnID := "1700000000000000000";
               nc_TunnelName := "web" |}).
Proof.
  intros s1 s2.
  split; [vm_compute; reflexivity|].
  split; [simpl; rewrite !elem_of_cons; tauto|].
  do 5 (split; [reflexivity|]).
  split; [|split; reflexivity].
  simpl. rewrite !elem_of_cons, elem_of_nil.
  intros Hin. repeat (destruct Hin as [Hin|Hin]; [discriminate Hin|]).
  exact Hin.
Qed.

Lemma registration_continues_past_failures_witness :
  exists segs sess,
    client.Start agent (Some 1%nat) agentWire = inr sess /\
    Forall2 (props.exchange 1%nat) [webTunnel; sshTunnel; dbTunnel] segs /\
    props.regWrites (concat segs) =
      map client.regRequest [webTunnel; sshTunnel; dbTunnel] /\
    client.events (client.wire sess) =
      client.events (snd (client.authenticate "T" 1%nat agentWire)) ++
      concat segs ++ [client.EvGoHeartbeat 1%nat (10 * client.Second)] /\
    client.startRunning sess = true /\ client.heartbeatRunning sess = true /\
    client.result sess = None /\
    client.connected (client.cli sess) = true /\
    client.controlConn (client.cli sess) = Some 1%nat.
Proof.
  assert (Hauth : fst (client.authenticate
                         (config.cli_Token (client.Config agent)) 1%nat
                         agentWire) = None) by (vm_compute; reflexivity).
  exact (registration_continues_past_failures agent 1%nat agentWire Hauth).
Defined.

Lemma AddTunnel_duplicate_and_live_witness :
  let w := idleWire (regResp "mail" true 10025 EmptyString) in
  client.AddTunnel connectedAgent webTunnel w =
    (Some (errors.Errorf "tunnel name web already exists"), w) /\
  web.handleTunnelsPost connectedAgent webTunnel w = (500, connectedAgent, w)
  /\ client.AddTunnel connectedAgent mailTunnel w =
     client.registerTunnel 1%nat mailTunnel w /\
  fst (client.AddTunnel connectedAgent mailTunnel w) = None.
Proof.
  intros w.
  assert (Hdup : config.Name webTunnel
                 ∈ map config.Name
                     (config.Tunnels (client.Config connectedAgent)))
    by (simpl; rewrite !elem_of_cons; tauto).
  assert (Hfresh : config.Name mailTunnel
                   ∉ map config.Name
                       (config.Tunnels (client.Config connectedAgent))).
  { simpl. rewrite !elem_of_cons, elem_of_nil.
    intros Hin. repeat (destruct Hin as [Hin|Hin]; [discriminate Hin|]).
    exact Hin. }
  assert (Hok : props.registrationSucceeds w).
  { split; [reflexivity|]. eexists _, _. repeat split; reflexivity. }
  destruct (proj1 (AddTunnel_duplicate_and_live connectedAgent webTunnel w)
              Hdup) as [Herr Hpost].
  destruct (proj2 (AddTunnel_duplicate_and_live connectedAgent mailTunnel w)
              1%nat Hfresh eq_refl eq_refl) as (Hreg & _ & Hnone).
  split; [exact Herr|]. split; [exact Hpost|]. split; [exact Hreg|].
  apply Hnone, Hok.
Defined.

End Instances.

(** ** The relay: what every run keeps *)

Section RelayInvariants.
Import protocol server relay.





Lemma handleRegisterTunnel_success (env : Env) (conn : Conn)
    (req : RegTunnelRequest) (s : Server) :
  outOfRange (config.PortRange (Config s)) (req_RemotePort req) = false ->
  listen_err env (events s) (req_RemotePort req) = None ->
  let ln := fresh (dom (listeners s)) in
  let t := fresh (dom (heap s)) in
  handleRegisterTunnel env conn req s =
  {| Config := Config s;
     tunnels := <[req_Name req := t]> (tunnels s);
     pendingConns := pendingConns s;
     heap :=
       <[t := {| Name := req_Name req; Protocol := req_Protocol req;
                 RemotePort := req_RemotePort req; Listener_ := ln;
                 ControlConn := conn; ActiveConns := 0 |}]> (heap s);
     listeners := <[ln := (req_RemotePort req, true)]> (listeners s);
     events :=
       events s ++
       [EvListen (req_RemotePort req) (Some ln);
        EvWrite conn TypeRegResp
          (PRegTunnelResponse
             {| resp_Name := req_Name req; resp_Success := true;
                resp_RemotePort := req_RemotePort req;
                resp_Error := EmptyString |})
          (write_ok env
             (events s ++ [EvListen (req_RemotePort req) (Some ln)]) conn);
        EvGoAccept t] |}.
Proof.
  intros Hout Hbind ln t. unfold handleRegisterTunnel.
  rewrite Hout, Hbind. unfold WriteMessage, emit; simpl.
  by rewrite <- !app_assoc.
Qed.

(** When the request is refused or the port cannot be bound, the relay
    writes one response and holds what it held. *)
Lemma handleRegisterTunnel_failure (env : Env) (conn : Conn)
    (req : RegTunnelRequest) (s : Server) :
  outOfRange (config.PortRange (Config s)) (req_RemotePort req) = true \/
  is_Some (listen_err env (events s) (req_RemotePort req)) ->
  props.sameRegistries s (handleRegisterTunnel env conn req s) /\
  exists new,
    events (handleRegisterTunnel env conn req s) = events s ++ new /\
    Forall (fun e => match e with
                     | EvWrite c _ _ _ => c = conn
                     | EvListen _ None => True
                     | _ => False
                     end) new.
Proof.
  intros Hcase. unfold handleRegisterTunnel.
  destruct (outOfRange _ _) eqn:Hout.
  - split; [repeat split|]. eexists; split; [reflexivity|].
    by repeat constructor.
  - destruct Hcase as [|[err Herr]]; [done|]. rewrite Herr.
    split; [repeat split|]. eexists; split.
    + simpl. by rewrite <- app_assoc.
    + by repeat constructor.
Qed.



Lemma alter_addActive_lookup (d : Z) (t t0 : TunnelPtr)
    (h : gmap TunnelPtr Tunnel) :
  alter (addActive d) t h !! t0 =
  (fun tun => if decide (t = t0) then addActive d tun else tun) <$> h !! t0.
Proof.
  rewrite lookup_alter. destruct (decide (t = t0)) as [->|];
    by destruct (h !! t0).
Qed.

Lemma handleProxyData_present (clientConn : Conn) (req : ProxyDataRequest)
    (pc : PendingConn) (s : Server) :
  pendingConns s !! pd_ConnID req = Some pc ->
  handleProxyData clientConn req s =
  {| Config := Config s; tunnels := tunnels s;
     pendingConns := delete (pd_ConnID req) (pendingConns s);
     heap := alter (addActive (-1)) (Tunnel_ pc) (heap s);
     listeners := listeners s;
     events :=
       events s ++ [EvBridge (Conn_ pc) clientConn; EvClose (Conn_ pc)] |}.
Proof.
  intros Hpc. unfold handleProxyData. rewrite Hpc.
  unfold AddInt64, emit, set_heap, set_pendingConns; simpl.
  by rewrite <- app_assoc.
Qed.





End RelayInvariants.

Section RelayRuns.
Import protocol server relay.
Context {Raw : Type} `{Codec Raw}.

Lemma handshake_events (env : Env) (conn : Conn) (first : Decoded Raw)
    (s : Server) :
  props.sameRegistries s (snd (handshake env conn first s)) /\
  exists new,
    events (snd (handshake env conn first s)) = events s ++ new /\
    Forall (fun e => exists p ok, e = EvWrite conn TypeAuthResp p ok) new.
Proof.
  unfold handshake. destruct first as [msg| |].
  2,3: split; [repeat split|]; exists []; by rewrite app_nil_r.
  destruct (decide _).
  { split; [repeat split|]; exists []; by rewrite app_nil_r. }
  destruct (UnmarshalAuthRequest _) as [req|].
  2: { split; [repeat split|]; exists []; by rewrite app_nil_r. }
  destruct (decide _); simpl.
  - split; [repeat split|]. eexists; split; [reflexivity|].
    constructor; [by eexists _, _|constructor].
  - split; [repeat split|]. eexists; split; [reflexivity|].
    constructor; [by eexists _, _|constructor].
Qed.









End RelayRuns.

Section ControlConnection.
Import protocol server relay.
Context {Raw : Type} `{Codec Raw}.

Lemma served_refl (conn : Conn) (s : Server) : served conn s s.
Proof.
  exists []. rewrite app_nil_r. split; [done|]. split; [done|].
  split; [done|]. split; [|split].
  - intros port ln Hin. by apply elem_of_nil in Hin.
  - intros l. apply not_elem_of_nil.
  - intros c ty p ok Hin. by apply elem_of_nil in Hin.
Qed.

Lemma served_trans (conn : Conn) (s1 s2 s3 : Server) :
  served conn s1 s2 -> served conn s2 s3 -> served conn s1 s3.
Proof.
  intros (n1 & E1 & L1 & T1 & O1 & C1 & W1) (n2 & E2 & L2 & T2 & O2 & C2 & W2).
  exists (n1 ++ n2). rewrite E2, E1, app_assoc.
  repeat split; [by auto..| | |].
  - intros port ln [Hin|Hin]%elem_of_app; [|by apply O2]. by apply L2, O1.
  - intros l [Hin|Hin]%elem_of_app; [by apply C1 in Hin|by apply C2 in Hin].
  - intros c ty p ok [Hin|Hin]%elem_of_app; [by eapply W1|by eapply W2].
Qed.

(** Logging events that bind or close no listener, with writes on [conn]
    only, serves [conn]. *)
Lemma served_events (conn : Conn) (s s' : Server) (new : list Event) :
  props.sameRegistries s s' ->
  events s' = events s ++ new ->
  Forall (fun e => match e with
                   | EvWrite c _ _ _ => c = conn
                   | EvListen _ (Some _) | EvListenerClose _ => False
                   | _ => True
                   end) new ->
  served conn s s'.
Proof.
  intros (_ & Ht & _ & Hl & _) Hev Hall. rewrite Forall_forall in Hall.
  exists new. rewrite Ht, Hl. repeat split; try done.
  - intros port ln Hin. by apply Hall in Hin.
  - intros l Hin. by apply Hall in Hin.
  - intros c ty p ok Hin. by apply Hall in Hin.
Qed.

Lemma served_register (env : Env) (conn : Conn) (req : RegTunnelRequest)
    (s : Server) :
  served conn s (handleRegisterTunnel env conn req s).
Proof.
  destruct (outOfRange (config.PortRange (Config s)) (req_RemotePort req))
    eqn:Hout;
    [|destruct (listen_err env (events s) (req_RemotePort req)) eqn:Hbind].
  1,2: destruct (handleRegisterTunnel_failure env conn req s)
         as (Hsame & new & Hnew & Hall); [by (left + (right; eexists))|];
       apply (served_events conn s _ new); [done..|];
       eapply Forall_impl; [exact Hall|]; by intros [| ? []| | | | |].
  rewrite (handleRegisterTunnel_success env conn req s Hout Hbind).
  pose proof (is_fresh (dom (listeners s))) as Hfl.
  apply not_elem_of_dom in Hfl. cbv zeta.
  remember (fresh (dom (heap s))) as t eqn:Et.
  remember (fresh (dom (listeners s))) as ln eqn:El. clear Et El.
  eexists. split; [reflexivity|]. simpl. repeat split.
  - intros l st Hl. rewrite lookup_insert_ne; [done|]. congruence.
  - intros n Hn. destruct (decide (req_Name req = n)) as [<-|Hne].
    + by rewrite lookup_insert_eq.
    + by rewrite lookup_insert_ne.
  - intros port l. rewrite !elem_of_cons, elem_of_nil.
    intros [[= <- <-]|[?|[?|[]]]]; try discriminate.
    apply lookup_insert_eq.
  - intros l. rewrite !elem_of_cons, elem_of_nil.
    intros [?|[?|[?|[]]]]; discriminate.
  - intros c ty p ok. rewrite !elem_of_cons, elem_of_nil.
    intros [?|[[= -> _ _ _]|[?|[]]]]; try discriminate. done.
Qed.

Lemma served_claim (conn : Conn) (req : ProxyDataRequest) (s : Server) :
  served conn s (handleProxyData conn req s).
Proof.
  destruct (pendingConns s !! pd_ConnID req) as [pc|] eqn:Hpc.
  - rewrite (handleProxyData_present conn req pc s Hpc).
    eexists. split; [reflexivity|]. simpl. repeat split; try done.
    + intros port l. rewrite !elem_of_cons, elem_of_nil.
      intros [?|[?|[]]]; discriminate.
    + intros l. rewrite !elem_of_cons, elem_of_nil.
      intros [?|[?|[]]]; discriminate.
    + intros c ty p ok. rewrite !elem_of_cons, elem_of_nil.
      intros [?|[?|[]]]; discriminate.
  - unfold handleProxyData. rewrite Hpc. apply served_refl.
Qed.

Lemma served_emit (conn : Conn) (e : Event) (s : Server) :
  match e with
  | EvWrite c _ _ _ => c = conn
  | EvListen _ (Some _) | EvListenerClose _ => False
  | _ => True
  end ->
  served conn s (emit e s).
Proof.
  intros He. apply (served_events conn s _ [e]); [repeat split|done|].
  by constructor.
Qed.

Lemma served_controlLoop (env : Env) (conn : Conn)
    (inbox : list (Decoded Raw)) (s : Server) :
  served conn s (controlLoop env conn inbox s).
Proof.
  revert s; induction inbox as [|d inbox IH]; intros s;
    [apply served_refl|].
  destruct d as [msg| |]; [|apply served_refl..]. simpl.
  destruct (decide _).
  { destruct (UnmarshalRegTunnelRequest _); [|by apply IH].
    eapply served_trans; [apply served_register|apply IH]. }
  destruct (decide _).
  { eapply served_trans; [|apply IH]. by apply served_emit. }
  destruct (decide _); [|by apply IH].
  destruct (UnmarshalProxyDataRequest _); [|apply served_refl].
  apply served_claim.
Qed.

Lemma served_control (env : Env) (conn : Conn) (inbox : list (Decoded Raw))
    (s : Server) :
  served conn s (handleControlConnection env conn inbox s).
Proof.
  unfold handleControlConnection.
  destruct (handshake_events env conn (hd DecEOF inbox) s)
    as (Hsame & new & Hnew & Hall).
  assert (Hh : served conn s (snd (handshake env conn (hd DecEOF inbox) s))).
  { apply (served_events conn s _ new); [done..|].
    eapply Forall_impl; [exact Hall|]. by intros e (p & ok & ->). }
  destruct (handshake env conn (hd DecEOF inbox) s) as [[e|] s1];
    simpl in Hh.
  - eapply served_trans; [exact Hh|]. by apply served_emit.
  - eapply served_trans; [exact Hh|].
    eapply served_trans; [apply served_controlLoop|]. by apply served_emit.
Qed.

(** X3.  A control connection, whatever it sends, releases nothing: when the
    relay has closed it, every listener that was open is open, every
    listener bound for it is open, every name that was registered is
    registered, no listener was closed, and the relay wrote on no other
    connection.  Closing the connection is the last thing the relay does for
    it. *)
Theorem control_connection_releases_nothing (env : Env) (conn : Conn)
    (inbox : list (Decoded Raw)) (s : Server) :
  let s' := handleControlConnection env conn inbox s in
  events s' = events s ++ props.newEvents s s' /\
  last (events s') = Some (EvClose conn) /\
  (forall l st, listeners s !! l = Some st -> listeners s' !! l = Some st) /\
  (forall n, is_Some (tunnels s !! n) -> is_Some (tunnels s' !! n)) /\
  (forall port ln,
     EvListen port (Some ln) ∈ props.newEvents s s' ->
     listeners s' !! ln = Some (port, true)) /\
  (forall l, EvListenerClose l ∉ props.newEvents s s') /\
  (forall c ty p ok, EvWrite c ty p ok ∈ props.newEvents s s' -> c = conn).
Proof.
  intros s'.
  destruct (served_control env conn inbox s)
    as (new & Hev & HL & HT & HO & HC & HW).
  fold s' in Hev, HL, HT, HO.
  assert (Hnew : props.newEvents s s' = new).
  { unfold props.newEvents. by rewrite Hev, drop_app_length. }
  rewrite Hnew. repeat split; try done.
  unfold s', handleControlConnection.
  destruct (handshake _ _ _ _) as [[e|] s1]; simpl; apply last_snoc.
Qed.

End ControlConnection.

Section RelayHandlers.
Import protocol server relay.
Context {Raw : Type} `{Codec Raw}.

(** X4.  The handshake lets a connection in exactly when its first message
    is an authenticate request whose payload decodes, whose token is the
    configured token, and the success response could be written; that
    response is then the one thing the relay has done. *)
Theorem handshake_accepts_iff (env : Env) (conn : Conn)
    (first : Decoded Raw) (s : Server) :
  (fst (handshake env conn first s) = None <->
   exists msg req,
     first = DecMsg msg /\ Type_ msg = TypeAuth /\
     UnmarshalAuthRequest (Payload_ msg) = Some req /\
     Token req = config.Token (Config s) /\
     write_ok env (events s) conn = true) /\
  (fst (handshake env conn first s) = None ->
   props.newEvents s (snd (handshake env conn first s)) =
     [EvWrite conn TypeAuthResp
        (PAuthResponse {| auth_Success := true; auth_Error := EmptyString |})
        true]).
Proof.
  unfold handshake, props.newEvents.
  destruct first as [msg| |]; simpl;
    [|split; [split; [done|by intros (? & ? & ? & _)]|done]..].
  destruct (decide (Type_ msg <> TypeAuth)) as [Hty|Hty]; simpl.
  { split; [|done]. split; [done|]. by intros (? & ? & [= <-] & ? & _). }
  apply dec_stable in Hty.
  destruct (UnmarshalAuthRequest (Payload_ msg)) as [req|] eqn:Hreq; simpl.
  2: { split; [|done]. split; [done|].
       intros (? & ? & [= <-] & _ & ? & _). congruence. }
  destruct (decide (Token req <> config.Token (Config s))) as [Htok|Htok];
    simpl.
  { split; [|done]. split; [done|].
    intros (? & ? & [= <-] & _ & ? & ? & _). congruence. }
  apply dec_stable in Htok.
  destruct (write_ok env (events s) conn) eqn:Hok; simpl.
  - split; [|by rewrite drop_app_length]. split; [|done].
    intros _. by exists msg, req.
  - split; [|done]. split; [done|]. by intros (? & ? & _ & _ & _ & _ & ?).
Qed.

(** X5.  The command loop skips the messages whose type it does not know: it
    does with an inbox what it does with the inbox without them. *)
Theorem controlLoop_skips_unknown_types (env : Env) (conn : Conn)
    (inbox : list (Decoded Raw)) (s : Server) :
  controlLoop env conn inbox s =
  controlLoop env conn (List.filter relevant inbox) s.
Proof.
  revert s; induction inbox as [|d inbox IH]; intros s; [done|].
  destruct d as [msg| |]; [|done..]. simpl. unfold handled.
  destruct (decide (Type_ msg = TypeRegTunnel)) as [Hr|Hr].
  { rewrite (bool_decide_eq_true_2 _ Hr). simpl.
    rewrite (decide_True _ _ Hr).
    destruct (UnmarshalRegTunnelRequest _); apply IH. }
  rewrite (bool_decide_eq_false_2 _ Hr). simpl.
  destruct (decide (Type_ msg = TypePing)) as [Hp|Hp].
  { rewrite (bool_decide_eq_true_2 _ Hp). simpl.
    rewrite (decide_False _ _ Hr), (decide_True _ _ Hp). apply IH. }
  rewrite (bool_decide_eq_false_2 _ Hp). simpl.
  destruct (decide (Type_ msg = TypeProxyData)) as [Hd|Hd].
  { rewrite (bool_decide_eq_true_2 _ Hd). simpl.
    by rewrite (decide_False _ _ Hr), (decide_False _ _ Hp),
      (decide_True _ _ Hd). }
  rewrite (bool_decide_eq_false_2 _ Hd). apply IH.
Qed.

(** X6.  The command loop reads nothing after a claim of a data connection,
    a failed decode or the end of the stream: what follows in the inbox
    makes no difference. *)
Theorem controlLoop_stops_reading (env : Env) (conn : Conn)
    (before after : list (Decoded Raw)) (d : Decoded Raw) (s : Server) :
  readsOn d = false ->
  controlLoop env conn (before ++ d :: after) s =
  controlLoop env conn (before ++ [d]) s.
Proof.
  intros Hd. revert s; induction before as [|b before IH]; intros s; simpl.
  - destruct d as [msg| |]; [|done..]. simpl in Hd.
    apply negb_false_iff, bool_decide_eq_true_1 in Hd.
    rewrite Hd.
    destruct (decide (TypeProxyData = TypeRegTunnel)); [discriminate|].
    destruct (decide (TypeProxyData = TypePing)); [discriminate|].
    destruct (decide (TypeProxyData = TypeProxyData)); [|done].
    by destruct (UnmarshalProxyDataRequest _).
  - destruct b as [msg| |]; [|done..].
    destruct (decide _).
    { destruct (UnmarshalRegTunnelRequest _); apply IH. }
    destruct (decide _); [apply IH|].
    destruct (decide _); [done|apply IH].
Qed.

(** X7.  A pending connection is consumed once: after a claim or an expiry
    of an id, every further claim or expiry of that id does nothing. *)
Theorem consumed_once (c1 c2 : Conn) (id : string) (s : Server) :
  let claimed := handleProxyData c1 {| pd_ConnID := id |} s in
  handleProxyData c2 {| pd_ConnID := id |} claimed = claimed /\
  expire id claimed = claimed /\
  handleProxyData c2 {| pd_ConnID := id |} (expire id s) = expire id s /\
  expire id (expire id s) = expire id s.
Proof.
  assert (Hc : pendingConns (handleProxyData c1 {| pd_ConnID := id |} s)
               !! id = None).
  { destruct (pendingConns s !! id) as [pc|] eqn:Hpc.
    - rewrite (handleProxyData_present c1 {| pd_ConnID := id |} pc s Hpc).
      simpl.
      apply lookup_delete_eq.
    - unfold handleProxyData. simpl. by rewrite Hpc. }
  assert (He : pendingConns (expire id s) !! id = None).
  { destruct (pendingConns s !! id) as [pc|] eqn:Hpc.
    - rewrite (expire_present id pc s Hpc). simpl. apply lookup_delete_eq.
    - by rewrite (expire_absent id s Hpc). }
  intros claimed. repeat split.
  - unfold handleProxyData at 1. simpl. fold claimed in Hc. by rewrite Hc.
  - by apply expire_absent.
  - unfold handleProxyData at 1. simpl. by rewrite He.
  - apply expire_idem.
Qed.

(** X8.  Two accepts that read different clocks get different ids, and both
    connections wait in the registry. *)
Theorem distinct_clocks_both_pending (t1 t2 : TunnelPtr) (c1 c2 : Conn)
    (now1 now2 : Z) (s : Server) :
  now1 <> now2 ->
  let s2 :=
    handlePublicConnection examples.okEnv t2 c2 now2
      (handlePublicConnection examples.okEnv t1 c1 now1 s) in
  fmt.Sprintd now1 <> fmt.Sprintd now2 /\
  pendingConns s2 !! fmt.Sprintd now1 = Some {| Conn_ := c1; Tunnel_ := t1 |}
  /\
  pendingConns s2 !! fmt.Sprintd now2 = Some {| Conn_ := c2; Tunnel_ := t2 |}.
Proof.
  intros Hne s2. unfold s2.
  assert (Hid : fmt.Sprintd now1 <> fmt.Sprintd now2).
  { intros Heq. by apply Hne, Sprintd_inj. }
  rewrite !handlePublicConnection_notified by reflexivity. simpl.
  split; [done|]. split.
  - rewrite lookup_insert_ne by done. apply lookup_insert_eq.
  - apply lookup_insert_eq.
Qed.

End RelayHandlers.

Section RelayRoundTrips.
Import protocol server relay.

(** X9.  An accept followed by the claim of its id, by its expiry, or undone
    at once because the agent could not be notified, leaves the relay as it
    was before the accept (the log apart): the registry of pending
    connections and the live counter are back, and the public connection is
    closed. *)
Theorem accept_then_consume_restores (env : Env) (t : TunnelPtr)
    (publicConn dataConn : Conn) (now : Z) (s : Server) (tun : Tunnel) :
  heap s !! t = Some tun ->
  - 2 ^ 63 <= ActiveConns tun < 2 ^ 63 ->
  pendingConns s !! fmt.Sprintd now = None ->
  let id := fmt.Sprintd now in
  let s1 := handlePublicConnection env t publicConn now s in
  (write_ok env (events s) (ControlConn tun) = true ->
   ActiveConns <$> heap s1 !! t = Some (wrap64 (ActiveConns tun + 1)) /\
   props.sameRegistries s (handleProxyData dataConn {| pd_ConnID := id |} s1)
   /\
   props.newEvents s1 (handleProxyData dataConn {| pd_ConnID := id |} s1) =
     [EvBridge publicConn dataConn; EvClose publicConn] /\
   props.sameRegistries s (expire id s1) /\
   props.newEvents s1 (expire id s1) = [EvClose publicConn]) /\
  (write_ok env (events s) (ControlConn tun) = false ->
   props.sameRegistries s s1 /\ last (events s1) = Some (EvClose publicConn)).
Proof.
  intros Ht Hrange Hfresh id s1.
  assert (Hcc : ControlConn (deref s t) = ControlConn tun).
  { unfold deref. by rewrite Ht. }
  unfold s1, id, props.newEvents. rewrite <- Hcc. split; intros Hok.
  - rewrite (handlePublicConnection_notified env t publicConn now s Hok).
    rewrite (handleProxyData_present dataConn _
               {| Conn_ := publicConn; Tunnel_ := t |})
      by (simpl; apply lookup_insert_eq).
    rewrite (expire_present _ {| Conn_ := publicConn; Tunnel_ := t |})
      by (simpl; apply lookup_insert_eq).
    simpl. rewrite !drop_app_length, lookup_alter_eq, Ht.
    rewrite (delete_insert_id _ _ _ Hfresh), (heap_back t tun _ Ht Hrange).
    repeat split.
  - rewrite (handlePublicConnection_rollback env t publicConn now s Hok).
    simpl. rewrite (delete_id _ _ Hfresh), (heap_back t tun _ Ht Hrange).
    repeat split. by rewrite last_app.
Qed.

Lemma handlePublicConnection_frame (env : Env) (t : TunnelPtr)
    (publicConn : Conn) (now : Z) (s : Server) :
  let s1 := handlePublicConnection env t publicConn now s in
  tunnels s1 = tunnels s /\ listeners s1 = listeners s /\
  Config s1 = Config s /\
  forall t0, Listener_ (deref s1 t0) = Listener_ (deref s t0).
Proof.
  intros s1. unfold s1.
  destruct (write_ok env (events s) (ControlConn (deref s t))) eqn:Hok.
  - rewrite (handlePublicConnection_notified env t publicConn now s Hok).
    repeat split. intros t0. unfold deref; simpl.
    rewrite alter_addActive_lookup.
    destruct (heap s !! t0); simpl; [|done]. by case_decide.
  - rewrite (handlePublicConnection_rollback env t publicConn now s Hok).
    repeat split. intros t0. unfold deref; simpl.
    rewrite !alter_addActive_lookup.
    destruct (heap s !! t0); simpl; [|done]. by repeat case_decide.
Qed.

(** X10.  When [Accept] fails the accept loop closes its listener and
    returns; the tunnel stays in the registry, so [GetStatus] goes on
    reporting a tunnel whose port is no longer bound. *)
Theorem accept_loop_exit_keeps_registration (env : Env) (t : TunnelPtr)
    (accepted : list (Conn * Z)) (s : Server) (port : Z) (open : bool) :
  listeners s !! Listener_ (deref s t) = Some (port, open) ->
  let s' := acceptTunnelConnections env t accepted s in
  tunnels s' = tunnels s /\
  listeners s' !! Listener_ (deref s t) = Some (port, false) /\
  last (events s') = Some (EvListenerClose (Listener_ (deref s t))) /\
  st_tunnels_count (GetStatus s') = st_tunnels_count (GetStatus s).
Proof.
  revert s; induction accepted as [|[c now] accepted IH]; intros s Hln; simpl.
  - repeat split.
    + by rewrite lookup_alter_eq, Hln.
    + apply last_snoc.
  - destruct (handlePublicConnection_frame env t c now s)
      as (Ht & Hl & _ & Hd).
    specialize (IH (handlePublicConnection env t c now s)).
    rewrite Hl, Hd, Ht in IH. destruct (IH Hln) as (I1 & I2 & I3 & I4).
    split; [done|]. split; [done|]. split; [done|].
    etrans; [exact I4|]. unfold GetStatus; simpl.
    by rewrite !length_fmap, !length_map_to_list, Ht.
Qed.

End RelayRoundTrips.

Section RelayStatus.
Import protocol server relay.
Context {Raw : Type} `{Codec Raw}.


End RelayStatus.

(** ** The agent: sessions, data connections and the dashboard *)

Section AgentSessions.
Import protocol client.
Context {Raw : Type} `{Codec Raw}.

Lemma authenticate_log (token : string) (cn : Conn) (w : Wire Raw) :
  props.regWrites (events (snd (authenticate token cn w))) =
  props.regWrites (events w).
Proof.
  unfold authenticate, WriteMessage, Decode, props.regWrites.
  destruct (hd false (outcomes w)); simpl.
  - destruct (hd DecEOF (inbox w)) as [msg| |]; simpl.
    + destruct (decide _); simpl;
        [|destruct (UnmarshalAuthResponse _) as [r|]; simpl;
          [destruct (auth_Success r)|]; simpl];
        rewrite !flat_map_app; simpl; by rewrite !app_nil_r.
    + rewrite !flat_map_app; simpl; by rewrite !app_nil_r.
    + rewrite !flat_map_app; simpl; by rewrite !app_nil_r.
  - rewrite !flat_map_app; simpl; by rewrite !app_nil_r.
Qed.

(** X12.  [Start] that cannot dial returns the error and touches nothing;
    [Start] whose authentication fails leaves the agent disconnected, closes
    the connection as its last act, and has sent no register-tunnel request. *)
Theorem Start_error_paths (c : Client) (cn : Conn) (w : Wire Raw) :
  Start c None w = inl (errors.ErrIO, c, w) /\
  (forall e,
     fst (authenticate (config.cli_Token (Config c)) cn w) = Some e ->
     exists c' w',
       Start c (Some cn) w = inl (e, c', w') /\
       Config c' = Config c /\ connected c' = false /\
       controlConn c' = None /\
       last (events w') = Some (EvClose cn) /\
       props.regWrites (events w') = props.regWrites (events w)).
Proof.
  split; [done|]. intros e Hauth. unfold Start.
  pose proof (authenticate_log (config.cli_Token (Config c)) cn w) as Hlog.
  destruct (authenticate _ _ _) as [err w1]. simpl in Hauth, Hlog.
  subst err. eexists _, _. split; [reflexivity|]. simpl.
  repeat split.
  - apply last_snoc.
  - unfold props.regWrites in *. rewrite flat_map_app. simpl.
    by rewrite app_nil_r.
Qed.

(** X13.  A session [Start] has begun is, after any ticks and reads, either
    still reading and connected, or has returned with an error (never
    without one), disconnected and with its connection closed. *)
Theorem session_returns_only_with_error (c : Client)
    (dial : option Conn) (w : Wire Raw) (sess : Session)
    (ins : list Input) :
  Start c dial w = inr sess ->
  agentinv.sessionOk (sessionRun ins sess) /\
  conn (sessionRun ins sess) = conn sess.
Proof.
  intros Hstart.
  assert (Hinit : agentinv.sessionOk sess).
  { unfold Start in Hstart. destruct dial as [cn|]; [|done].
    destruct (authenticate _ _ _) as [[e|] w1]; [done|].
    destruct (registerTunnels _ _ _) as [done w2].
    injection Hstart as <-. by left. }
  clear Hstart. revert sess Hinit.
  induction ins as [|i ins IH]; intros s Hs; [done|]. simpl.
  assert (Hstep : agentinv.sessionOk (sessionStep i s) /\
                  conn (sessionStep i s) = conn s).
  { destruct i; simpl.
    - unfold heartbeatTick. destruct (heartbeatRunning s); [|done].
      destruct (controlConn (cli s)) as [cur|] eqn:Hcur; [|done]. simpl.
      split; [|done].
      destruct Hs as [(H1 & H2 & H3 & H4)|(H1 & H2 & H3 & H4 & H5)].
      + by left.
      + congruence.
    - unfold readStep.
      destruct Hs as [(H1 & H2 & H3 & H4)|(H1 & H2 & H3 & H4 & H5)].
      + rewrite H1. unfold Decode. simpl.
        destruct (hd DecEOF (inbox (wire s))) as [msg| |]; simpl.
        * destruct (decide _);
            [destruct (UnmarshalNewConnRequest _)|]; split; try done;
            by left.
        * split; [|done]. right. simpl. repeat split; try done.
          apply elem_of_app; right. by apply list_elem_of_singleton.
        * split; [|done]. right. simpl. repeat split; try done.
          apply elem_of_app; right. by apply list_elem_of_singleton.
      + rewrite H1. split; [|done]. by right. }
  destruct Hstep as [Hok Hconn].
  destruct (IH _ Hok) as [IH1 IH2]. split; [done|]. by rewrite IH2.
Qed.


End AgentSessions.

Section DataConnection.
Import protocol dataconn.
Context {Raw : Type}.

Lemma localAddrOf_unknown (name : string) (ts : list config.Tunnel) :
  name ∉ map config.Name ts -> localAddrOf name ts = EmptyString.
Proof.
  induction ts as [|t ts IH]; simpl; [done|].
  rewrite not_elem_of_cons. intros [Hne Hin].
  destruct (String.eqb_spec (config.Name t) name); [congruence|by apply IH].
Qed.

(** X15.  [handleNewConn] closes what it has opened: whatever the network
    does, the connections it closes are the ones it has dialled, each once,
    the last dialled first. *)
Theorem handleNewConn_closes_what_it_opened (c : client.Client)
    (req : NewConnRequest) (net : Net Raw) :
  closed (handleNewConn c req net) = rev (opened (handleNewConn c req net)).
Proof.
  unfold handleNewConn. destruct (decide _); [done|].
  destruct (dial net (localAddrOf _ _)) as [lc|]; [|done].
  destruct (dial net (config.ServerAddr _)) as [sc|]; [|done].
  destruct (hd false (outcomes net)); simpl; [|done].
  destruct (answer net); simpl; [|done..].
  by destruct (hd false (tl (outcomes net))).
Qed.

(** X16.  A notification for a tunnel the agent does not have makes
    [handleNewConn] do nothing: no dial, no claim. *)
Theorem handleNewConn_unknown_tunnel (c : client.Client)
    (req : NewConnRequest) (net : Net Raw) :
  nc_TunnelName req ∉ map config.Name (config.Tunnels (client.Config c)) ->
  handleNewConn c req net = [].
Proof.
  intros Hin. unfold handleNewConn.
  by rewrite (localAddrOf_unknown _ _ Hin).
Qed.

Lemma handleNewConn_happy (c : client.Client)
    (req : NewConnRequest) (net : Net Raw) (t : config.Tunnel)
    (before after : list config.Tunnel) (msg : Message Raw)
    (localConn serverConn : Conn) (rest : list bool) :
  config.Tunnels (client.Config c) = before ++ t :: after ->
  nc_TunnelName req ∉ map config.Name before ->
  config.Name t = nc_TunnelName req ->
  config.LocalAddr t <> EmptyString ->
  dial net (config.LocalAddr t) = Some localConn ->
  dial net (config.ServerAddr (client.Config c)) = Some serverConn ->
  outcomes net = true :: true :: rest ->
  answer net = DecMsg msg ->
  handleNewConn c req net =
    [EvDial (config.LocalAddr t) (Some localConn);
     EvDial (config.ServerAddr (client.Config c)) (Some serverConn);
     EvWrite serverConn TypeAuth
       (PAuthRequest {| Token := config.cli_Token (client.Config c) |}) true;
     EvRead serverConn;
     EvWrite serverConn TypeProxyData
       (PProxyDataRequest {| pd_ConnID := nc_ConnID req |}) true;
     EvBridge localConn serverConn;
     EvClose serverConn; EvClose localConn].
Proof.
  intros Hts Hbefore Hname Haddr Hlocal Hserver Hout Hans.
  assert (Hl : localAddrOf (nc_TunnelName req)
                 (config.Tunnels (client.Config c)) = config.LocalAddr t).
  { rewrite Hts. clear Hts. induction before as [|b before IH]; simpl.
    - by rewrite Hname, String.eqb_refl.
    - simpl in Hbefore. apply not_elem_of_cons in Hbefore as [Hne Hin].
      destruct (String.eqb_spec (config.Name b) (nc_TunnelName req));
        [congruence|by apply IH]. }
  unfold handleNewConn. rewrite Hl.
  destruct (decide _); [done|]. rewrite Hlocal, Hserver, Hout, Hans. done.
Qed.

(** X17.  When both dials and both writes succeed and the relay answers the
    authentication with any message at all, [handleNewConn] claims the
    connection of the notification and bridges it with the local service:
    the answer is read and not looked at. *)
Theorem handleNewConn_claims_and_bridges (c : client.Client)
    (req : NewConnRequest) (net : Net Raw) (t : config.Tunnel)
    (before after : list config.Tunnel) (msg : Message Raw)
    (localConn serverConn : Conn) (rest : list bool) :
  config.Tunnels (client.Config c) = before ++ t :: after ->
  nc_TunnelName req ∉ map config.Name before ->
  config.Name t = nc_TunnelName req ->
  config.LocalAddr t <> EmptyString ->
  dial net (config.LocalAddr t) = Some localConn ->
  dial net (config.ServerAddr (client.Config c)) = Some serverConn ->
  outcomes net = true :: true :: rest ->
  answer net = DecMsg msg ->
  handleNewConn c req net =
    [EvDial (config.LocalAddr t) (Some localConn);
     EvDial (config.ServerAddr (client.Config c)) (Some serverConn);
     EvWrite serverConn TypeAuth
       (PAuthRequest {| Token := config.cli_Token (client.Config c) |}) true;
     EvRead serverConn;
     EvWrite serverConn TypeProxyData
       (PProxyDataRequest {| pd_ConnID := nc_ConnID req |}) true;
     EvBridge localConn serverConn;
     EvClose serverConn; EvClose localConn].
Proof. apply handleNewConn_happy. Qed.

End DataConnection.

Section Dashboard.
Import protocol client webtunnels.
Context {Raw : Type} `{Codec Raw}.

Lemma removeFirst_subset (name : string) (ts : list config.Tunnel)
    (t : config.Tunnel) :
  t ∈ removeFirst name ts -> t ∈ ts.
Proof.
  induction ts as [|x ts IH]; simpl; [done|].
  destruct (String.eqb (config.Name x) name).
  - intros Hin. by right.
  - rewrite !elem_of_cons. intros [?|?]; [by left|right; by apply IH].
Qed.

Lemma removeFirst_gone (name : string) (ts : list config.Tunnel) :
  NoDup (map config.Name ts) -> name ∉ map config.Name (removeFirst name ts).
Proof.
  induction ts as [|x ts IH]; simpl; [intros _; apply not_elem_of_nil|].
  rewrite NoDup_cons. intros [Hx Hnd].
  destruct (String.eqb_spec (config.Name x) name) as [<-|Hne]; [done|].
  simpl. rewrite not_elem_of_cons. split; [congruence|by apply IH].
Qed.

Lemma removeFirst_length (name : string) (ts : list config.Tunnel) :
  length (removeFirst name ts) =
  if bool_decide (name ∈ map config.Name ts)
  then pred (length ts) else length ts.
Proof.
  induction ts as [|x ts IH]; simpl; [done|].
  destruct (String.eqb_spec (config.Name x) name) as [<-|Hne].
  - rewrite bool_decide_eq_true_2; [done|by left].
  - simpl. rewrite IH. case_bool_decide as Hin.
    + rewrite bool_decide_eq_true_2 by (rewrite elem_of_cons; by right).
      destruct ts; [by apply elem_of_nil in Hin|done].
    + rewrite bool_decide_eq_false_2; [done|].
      rewrite not_elem_of_cons. split; [congruence|done].
Qed.

Lemma removeFirst_last (t : config.Tunnel) (ts : list config.Tunnel) :
  config.Name t ∉ map config.Name ts ->
  removeFirst (config.Name t) (ts ++ [t]) = ts.
Proof.
  induction ts as [|x ts IH]; simpl.
  - intros _. by rewrite String.eqb_refl.
  - rewrite not_elem_of_cons. intros [Hne Hin].
    destruct (String.eqb_spec (config.Name x) (config.Name t));
      [congruence|]. by rewrite IH.
Qed.

(** X18.  The [DELETE] of the dashboard on an agent takes the first tunnel
    of the name out of the list and tells the relay nothing: nothing is
    written on the control connection.  The other tunnels stay, and where
    names are unique the name is gone. *)
Theorem dashboard_delete_is_local (c : Client) (name : string)
    (w : Wire Raw) :
  exists c',
    handleTunnelsDelete c name w = (200, c', w) /\
    controlConn c' = controlConn c /\ connected c' = connected c /\
    config.Tunnels (Config c') = removeFirst name (config.Tunnels (Config c))
    /\
    (forall t, t ∈ config.Tunnels (Config c') ->
               t ∈ config.Tunnels (Config c)) /\
    length (config.Tunnels (Config c')) =
      (if bool_decide (name ∈ map config.Name (config.Tunnels (Config c)))
       then pred (length (config.Tunnels (Config c)))
       else length (config.Tunnels (Config c))) /\
    (NoDup (map config.Name (config.Tunnels (Config c))) ->
     name ∉ map config.Name (config.Tunnels (Config c'))).
Proof.
  eexists. split; [reflexivity|]. simpl. repeat split.
  - apply removeFirst_subset.
  - apply removeFirst_length.
  - apply removeFirst_gone.
Qed.

(** X19.  Adding a tunnel of a fresh name through the dashboard and deleting
    it again gives back the tunnel list; the relay, which was told of the
    addition, is not told of the removal. *)
Theorem dashboard_post_then_delete (c : Client) (t : config.Tunnel)
    (w : Wire Raw) :
  config.Name t ∉ map config.Name (config.Tunnels (Config c)) ->
  fst (AddTunnel c t w) = None ->
  exists c1 w1,
    web.handleTunnelsPost c t w = (200, c1, w1) /\
    config.Tunnels (Config c1) = config.Tunnels (Config c) ++ [t] /\
    handleTunnelsDelete c1 (config.Name t) w1 = (200, c, w1).
Proof.
  intros Hfresh Hadd. unfold web.handleTunnelsPost.
  destruct (AddTunnel c t w) as [err w1]. simpl in Hadd. subst err.
  eexists _, _. split; [reflexivity|]. split; [done|].
  unfold handleTunnelsDelete; simpl. rewrite (removeFirst_last t _ Hfresh).
  by destruct c as [[a k ts] cc cn].
Qed.

End Dashboard.

(** ** The agent and the relay together *)

Section EndToEnd.
Import protocol.
Context {Raw : Type} `{Codec Raw}.
Variable marshal : Payload -> Raw.
Hypothesis Hlaw : link.Lawful marshal.

Lemma law_AuthRequest (r : AuthRequest) :
  UnmarshalAuthRequest (marshal (PAuthRequest r)) = Some r.
Proof. by destruct Hlaw as (? & _). Qed.

Lemma law_AuthResponse (r : AuthResponse) :
  UnmarshalAuthResponse (marshal (PAuthResponse r)) = Some r.
Proof. by destruct Hlaw as (_ & ? & _). Qed.



Lemma law_NewConnRequest (r : NewConnRequest) :
  UnmarshalNewConnRequest (marshal (PNewConnRequest r)) = Some r.
Proof. by destruct Hlaw as (_ & _ & _ & _ & ? & _). Qed.

Lemma law_ProxyDataRequest (r : ProxyDataRequest) :
  UnmarshalProxyDataRequest (marshal (PProxyDataRequest r)) = Some r.
Proof. by destruct Hlaw as (_ & _ & _ & _ & _ & ?). Qed.

Lemma delivered_one (conn : server.Conn) (ty : MessageType) (p : Payload)
    (ok : bool) :
  link.delivered marshal conn [server.EvWrite conn ty p ok] =
  if ok then [link.envelope marshal ty p] else [].
Proof.
  unfold link.delivered; simpl. destruct ok; [|done].
  by rewrite decide_True.
Qed.

(** X20.  The authentication, both ends together: the relay reads what the
    agent wrote, the agent reads what the relay answered, and the agent
    takes itself for authenticated exactly when the relay has let it in,
    which is when the tokens are equal and the answer could be written. *)
Theorem authentication_end_to_end (env : server.Env)
    (rconn : server.Conn) (aconn : client.Conn) (token : string)
    (s : server.Server) :
  let request :=
    link.envelope marshal TypeAuth (PAuthRequest {| Token := token |}) in
  let relay := server.handshake env rconn request s in
  let reply :=
    link.delivered marshal rconn (props.newEvents s (snd relay)) in
  let agent :=
    client.authenticate token aconn
      {| client.inbox := reply; client.outcomes := [true];
         client.events := [] |} in
  link.uplink marshal (client.events (snd agent)) = [request] /\
  (fst agent = None <-> fst relay = None) /\
  (fst relay = None <->
   token = config.Token (server.Config s) /\
   server.write_ok env (server.events s) rconn = true).
Proof.
  intros request relay reply agent.
  unfold agent, reply, relay, request, link.envelope, server.handshake,
    client.authenticate, client.WriteMessage, client.Decode,
    props.newEvents.
  simpl. destruct (decide (TypeAuth <> TypeAuth)); [done|].
  rewrite law_AuthRequest. simpl.
  destruct (decide (token <> config.Token (server.Config s))) as [Hne|Heq];
    simpl; rewrite drop_app_length, delivered_one.
  - destruct (server.write_ok env (server.events s) rconn); simpl.
    + destruct (decide (TypeAuthResp <> TypeAuthResp)); [done|].
      rewrite law_AuthResponse. simpl.
      repeat split; try done. by intros [? _].
    + repeat split; try done. by intros [? _].
  - apply dec_stable in Heq.
    destruct (server.write_ok env (server.events s) rconn); simpl.
    + destruct (decide (TypeAuthResp <> TypeAuthResp)); [done|].
      rewrite law_AuthResponse. simpl. by repeat split.
    + repeat split; try done. by intros [_ ?].
Qed.



(** X22.  A public connection from the accept to the bridge, both ends
    together: the relay's notification reaches the agent with the id of the
    pending connection; the read loop of the agent starts a handler for it;
    the handler dials the local service and the relay and claims the id; the
    relay, serving that data connection, authenticates it, bridges it with
    the public connection, and ends with its registries as they were before
    the accept. *)
Theorem rendezvous_end_to_end (env : server.Env) (s : server.Server)
    (t : server.TunnelPtr) (tun : server.Tunnel)
    (publicConn dataConn : server.Conn) (now : Z)
    (c : client.Client) (sess : client.Session) (net : dataconn.Net Raw)
    (ct : config.Tunnel) (before after : list config.Tunnel)
    (msg : Message Raw) (localConn serverConn : dataconn.Conn)
    (rest : list bool) :
  server.heap s !! t = Some tun ->
  - 2 ^ 63 <= server.ActiveConns tun < 2 ^ 63 ->
  server.pendingConns s !! fmt.Sprintd now = None ->
  (forall evs cn, server.write_ok env evs cn = true) ->
  config.cli_Token (client.Config c) = config.Token (server.Config s) ->
  config.Tunnels (client.Config c) = before ++ ct :: after ->
  server.Name tun ∉ map config.Name before ->
  config.Name ct = server.Name tun ->
  config.LocalAddr ct <> EmptyString ->
  dataconn.dial net (config.LocalAddr ct) = Some localConn ->
  dataconn.dial net (config.ServerAddr (client.Config c)) = Some serverConn ->
  dataconn.outcomes net = true :: true :: rest ->
  dataconn.answer net = DecMsg msg ->
  client.startRunning sess = true ->
  let req :=
    {| nc_ConnID := fmt.Sprintd now; nc_TunnelName := server.Name tun |} in
  let s1 := server.handlePublicConnection env t publicConn now s in
  let notified :=
    link.delivered marshal (server.ControlConn tun) (props.newEvents s s1) in
  let evs := dataconn.handleNewConn c req net in
  let s2 :=
    server.handleControlConnection env dataConn
      (link.dataUplink marshal evs) s1 in
  notified = [link.envelope marshal TypeNewConn (PNewConnRequest req)] /\
  (client.inbox (client.wire sess) = notified ->
   client.events (client.wire (client.readStep sess)) =
     client.events (client.wire sess) ++
     [client.EvRead (client.conn sess); client.EvGoNewConn req]) /\
  dataconn.EvBridge localConn serverConn ∈ evs /\
  props.newEvents s1 s2 =
    [server.EvWrite dataConn TypeAuthResp
       (PAuthResponse {| auth_Success := true; auth_Error := EmptyString |})
       true;
     server.EvBridge publicConn dataConn; server.EvClose publicConn;
     server.EvClose dataConn] /\
  props.sameRegistries s s2.
Proof.
  intros Ht Hrange Hfresh Hok Htok Hts Hbefore Hname Haddr Hlocal Hserver
    Hout Hans Hrun req s1.
  assert (Hs1 : s1 = _) by
    (apply (handlePublicConnection_notified env t publicConn now s), Hok).
  assert (Hderef : server.deref s t = tun).
  { unfold server.deref. by rewrite Ht. }
  rewrite Hderef in Hs1. clearbody s1. subst s1.
  intros notified evs.
  assert (Hevs : evs = _) by
    (apply (handleNewConn_happy c req net ct before after msg localConn
              serverConn rest); done).
  clearbody evs. subst evs. intros s2.
  assert (Hnot : notified =
                 [link.envelope marshal TypeNewConn (PNewConnRequest req)]).
  { unfold notified, props.newEvents. simpl.
    rewrite drop_app_length. unfold link.delivered; simpl.
    by rewrite decide_True. }
  split; [exact Hnot|]. split; [|split].
  - intros Hin. unfold client.readStep, client.Decode. rewrite Hrun, Hin, Hnot.
    unfold link.envelope; simpl.
    destruct (decide (TypeNewConn = TypeNewConn)); [|done].
    rewrite law_NewConnRequest. simpl. by rewrite <- app_assoc.
  - rewrite !elem_of_cons. tauto.
  - unfold s2, server.handleControlConnection, server.handshake.
    unfold link.dataUplink, link.envelope; simpl.
    destruct (decide (TypeAuth <> TypeAuth)); [done|].
    rewrite law_AuthRequest. simpl.
    destruct (decide _) as [Hne|_]; [by rewrite Htok in Hne|].
    simpl. rewrite Hok. simpl.
    destruct (decide (TypeProxyData = TypeRegTunnel)); [discriminate|].
    destruct (decide (TypeProxyData = TypePing)); [discriminate|].
    destruct (decide (TypeProxyData = TypeProxyData)); [|done].
    rewrite law_ProxyDataRequest.
    rewrite (handleProxyData_present dataConn _
               {| server.Conn_ := publicConn; server.Tunnel_ := t |})
      by (simpl; apply lookup_insert_eq).
    unfold props.newEvents. simpl.
    rewrite (delete_insert_id _ _ _ Hfresh), (heap_back t tun _ Ht Hrange).
    split; [|repeat split].
    match goal with
    | |- drop (length ?A) ?X = ?L =>
        replace X with (A ++ L) by (by rewrite <- !app_assoc)
    end.
    apply drop_app_length.
Qed.

End EndToEnd.

(** ** Further statements at concrete inputs *)

Section MoreInstances.
Import protocol examples scenarios.





Lemma controlLoop_stops_reading_witness :
  server.controlLoop okEnv 1%nat
    ([DecMsg pingMsg] ++ DecEOF :: [regMsg webRequest])
    (server.NewServer relayCfg) =
  server.controlLoop okEnv 1%nat ([DecMsg pingMsg] ++ [DecEOF])
    (server.NewServer relayCfg).
Proof.
  exact (controlLoop_stops_reading okEnv 1%nat [DecMsg pingMsg]
           [regMsg webRequest] DecEOF (server.NewServer relayCfg) eq_refl).
Defined.

Lemma distinct_clocks_both_pending_witness :
  let s2 :=
    server.handlePublicConnection okEnv 0%nat 8%nat (clock + 1)
      (server.handlePublicConnection okEnv 0%nat 7%nat clock relayServed) in
  fmt.Sprintd clock <> fmt.Sprintd (clock + 1) /\
  server.pendingConns s2 !! fmt.Sprintd clock =
    Some {| server.Conn_ := 7%nat; server.Tunnel_ := 0%nat |} /\
  server.pendingConns s2 !! fmt.Sprintd (clock + 1) =
    Some {| server.Conn_ := 8%nat; server.Tunnel_ := 0%nat |}.
Proof.
  apply distinct_clocks_both_pending.
  unfold clock. lia.
Defined.

Lemma accept_then_consume_restores_witness :
  props.sameRegistries relayServed
    (server.handleProxyData 9%nat
       {| pd_ConnID := fmt.Sprintd clock |} relayAccepted) /\
  props.sameRegistries relayServed
    (server.expire (fmt.Sprintd clock) relayAccepted).
Proof.
  assert (Hheap : server.heap relayServed !! 0%nat =
                  Some {| server.Name := "web"; server.Protocol := "tcp";
                          server.RemotePort := 10080;
                          server.Listener_ := 0%nat;
                          server.ControlConn := 1%nat;
                          server.ActiveConns := 0 |})
    by (vm_compute; reflexivity).
  assert (Hfresh : server.pendingConns relayServed !! fmt.Sprintd clock
                   = None) by (vm_compute; reflexivity).
  destruct (accept_then_consume_restores okEnv 0%nat 7%nat 9%nat clock
              relayServed _ Hheap) as [Hok _]; [simpl; lia|exact Hfresh|].
  destruct (Hok eq_refl) as (_ & Hclaim & _ & Hexp & _).
  split; [exact Hclaim|exact Hexp].
Defined.

Lemma accept_loop_exit_keeps_registration_witness :
  let s' :=
    server.acceptTunnelConnections okEnv 0%nat [(7%nat, clock)] relayServed in
  server.tunnels s' = server.tunnels relayServed /\
  server.listeners s' !! 0%nat = Some (10080, false) /\
  last (server.events s') = Some (server.EvListenerClose 0%nat) /\
  relay.st_tunnels_count (relay.GetStatus s') = 1%nat.
Proof.
  assert (Hln : server.listeners relayServed
                !! server.Listener_ (server.deref relayServed 0%nat)
                = Some (10080, true)) by (vm_compute; reflexivity).
  destruct (accept_loop_exit_keeps_registration okEnv 0%nat [(7%nat, clock)]
              relayServed 10080 true Hln) as (H1 & H2 & H3 & H4).
  split; [exact H1|]. split; [exact H2|]. split; [exact H3|].
  rewrite H4. vm_compute. reflexivity.
Defined.

Lemma session_returns_only_with_error_witness :
  agentinv.sessionOk returnedSession /\
  client.startRunning returnedSession = false /\
  client.result returnedSession = Some errors.EOF.
Proof.
  assert (Hstart : client.Start agent (Some 1%nat) agentWire = inr afterStart)
    by (vm_compute; reflexivity).
  split; [|split; reflexivity].
  exact (proj1 (session_returns_only_with_error agent (Some 1%nat) agentWire
                  afterStart [client.Readable; client.Readable] Hstart)).
Defined.


Lemma handleNewConn_unknown_tunnel_witness :
  dataconn.handleNewConn connectedAgent
    {| nc_ConnID := "1700000000000000000"; nc_TunnelName := "mail" |}
    dataNet = [].
Proof.
  apply handleNewConn_unknown_tunnel. simpl.
  rewrite !not_elem_of_cons. repeat split; try discriminate.
  apply not_elem_of_nil.
Defined.

Lemma handleNewConn_claims_and_bridges_witness :
  dataconn.handleNewConn connectedAgent sshNotification dataNet =
    [dataconn.EvDial "127.0.0.1:22" (Some 12%nat);
     dataconn.EvDial "relay:7000" (Some 20%nat);
     dataconn.EvWrite 20%nat TypeAuth (PAuthRequest {| Token := "T" |}) true;
     dataconn.EvRead 20%nat;
     dataconn.EvWrite 20%nat TypeProxyData
       (PProxyDataRequest {| pd_ConnID := "1700000000000000000" |}) true;
     dataconn.EvBridge 12%nat 20%nat;
     dataconn.EvClose 20%nat; dataconn.EvClose 12%nat].
Proof.
  apply (handleNewConn_claims_and_bridges connectedAgent sshNotification
           dataNet sshTunnel [webTunnel] [dbTunnel]
           {| Type_ := TypeAuthResp;
              Payload_ :=
                PAuthResponse
                  {| auth_Success := true; auth_Error := EmptyString |} |}
           12%nat 20%nat []); try reflexivity.
  - simpl. rewrite not_elem_of_cons. split; [discriminate|].
    apply not_elem_of_nil.
  - discriminate.
Defined.

Lemma dashboard_post_then_delete_witness :
  let w := idleWire (regResp "mail" true 10025 EmptyString) in
  exists c1 w1,
    web.handleTunnelsPost connectedAgent mailTunnel w = (200, c1, w1) /\
    config.Tunnels (client.Config c1) =
      [webTunnel; sshTunnel; dbTunnel] ++ [mailTunnel] /\
    webtunnels.handleTunnelsDelete c1 "mail" w1 = (200, connectedAgent, w1).
Proof.
  intros w.
  apply (dashboard_post_then_delete connectedAgent mailTunnel w).
  - simpl. rewrite !not_elem_of_cons. repeat split; try discriminate.
    apply not_elem_of_nil.
  - reflexivity.
Defined.

Lemma marshal_lawful : link.Lawful marshal.
Proof. by repeat split. Qed.

Lemma authentication_end_to_end_witness :
  let s := server.NewServer relayCfg in
  let good :=
    server.handshake okEnv 1%nat
      (link.envelope marshal TypeAuth (PAuthRequest {| Token := "T" |})) s in
  let bad :=
    server.handshake okEnv 1%nat
      (link.envelope marshal TypeAuth (PAuthRequest {| Token := "X" |})) s in
  fst good = None /\ fst bad <> None.
Proof.
  intros s good bad.
  destruct (authentication_end_to_end marshal marshal_lawful okEnv 1%nat
              1%nat "T" s) as (_ & _ & Hgood).
  destruct (authentication_end_to_end marshal marshal_lawful okEnv 1%nat
              1%nat "X" s) as (_ & _ & Hbad).
  split.
  - apply Hgood. by split.
  - intros Hnone. apply Hbad in Hnone as [Htok _]. discriminate Htok.
Defined.


Lemma rendezvous_end_to_end_witness :
  let req :=
    {| nc_ConnID := fmt.Sprintd clock; nc_TunnelName := "web" |} in
  let s2 :=
    server.handleControlConnection okEnv 9%nat
      (link.dataUplink marshal
         (dataconn.handleNewConn connectedAgent req dataNet))
      relayAccepted in
  server.EvBridge 7%nat 9%nat ∈ props.newEvents relayAccepted s2 /\
  props.sameRegistries relayServed s2.
Proof.
  intros req s2.
  pose (tun := {| server.Name := "web"; server.Protocol := "tcp";
                  server.RemotePort := 10080; server.Listener_ := 0%nat;
                  server.ControlConn := 1%nat; server.ActiveConns := 0 |}).
  assert (Hheap : server.heap relayServed !! 0%nat = Some tun)
    by (vm_compute; reflexivity).
  assert (Hrange : - 2 ^ 63 <= server.ActiveConns tun < 2 ^ 63)
    by (simpl; lia).
  assert (Hfresh : server.pendingConns relayServed !! fmt.Sprintd clock
                   = None) by (vm_compute; reflexivity).
  assert (Hok : forall evs cn, server.write_ok okEnv evs cn = true) by done.
  assert (Htok : config.cli_Token (client.Config connectedAgent) =
                 config.Token (server.Config relayServed))
    by (vm_compute; reflexivity).
  assert (Hbefore : server.Name tun ∉ map config.Name [])
    by apply not_elem_of_nil.
  assert (Haddr : config.LocalAddr webTunnel <> EmptyString)
    by discriminate.
  destruct (rendezvous_end_to_end marshal marshal_lawful okEnv relayServed
              0%nat tun 7%nat 9%nat clock connectedAgent afterStart dataNet
              webTunnel [] [sshTunnel; dbTunnel]
              {| Type_ := TypeAuthResp;
                 Payload_ :=
                   PAuthResponse
                     {| auth_Success := true; auth_Error := EmptyString |} |}
              11%nat 20%nat [] Hheap Hrange Hfresh Hok Htok eq_refl Hbefore
              eq_refl Haddr eq_refl eq_refl eq_refl eq_refl eq_refl)
    as (_ & _ & _ & Hnew & Hsame).
  split; [|exact Hsame].
  change (server.EvBridge 7%nat 9%nat
            ∈ props.newEvents
                (server.handlePublicConnection okEnv 0%nat 7%nat clock
                   relayServed)
                (server.handleControlConnection okEnv 9%nat
                   (link.dataUplink marshal
                      (dataconn.handleNewConn connectedAgent
                         {| nc_ConnID := fmt.Sprintd clock;
                            nc_TunnelName := server.Name tun |} dataNet))
                   (server.handlePublicConnection okEnv 0%nat 7%nat clock
                      relayServed))).
  rewrite Hnew. rewrite !elem_of_cons. tauto.
Defined.

Lemma control_connection_releases_nothing_witness :
  server.listeners relayServed !! 0%nat = Some (10080, true) /\
  last (server.events relayServed) = Some (server.EvClose 1%nat).
Proof.
  destruct (control_connection_releases_nothing okEnv 1%nat
              [DecMsg (authMsg "T"); regMsg webRequest]
              (server.NewServer relayCfg))
    as (_ & Hlast & _ & _ & Hbound & _).
  split; [|exact Hlast].
  apply (Hbound 10080 0%nat). apply list_elem_of_In. vm_compute. tauto.
Defined.

Lemma handshake_accepts_iff_witness :
  let s := server.NewServer relayCfg in
  fst (server.handshake okEnv 5%nat (DecMsg (authMsg "T")) s) = None /\
  props.newEvents s
    (snd (server.handshake okEnv 5%nat (DecMsg (authMsg "T")) s)) =
    [server.EvWrite 5%nat TypeAuthResp
       (PAuthResponse {| auth_Success := true; auth_Error := EmptyString |})
       true].
Proof.
  intros s.
  destruct (handshake_accepts_iff okEnv 5%nat (DecMsg (authMsg "T")) s)
    as [Hiff Hev].
  assert (Hnone : fst (server.handshake okEnv 5%nat (DecMsg (authMsg "T")) s)
                  = None).
  { apply Hiff. exists (authMsg "T"), {| Token := "T" |}.
    repeat split. }
  split; [exact Hnone|exact (Hev Hnone)].
Defined.

Lemma Start_error_paths_witness :
  client.Start agent None agentWire = inl (errors.ErrIO, agent, agentWire) /\
  exists e c' w',
    client.Start agent (Some 1%nat) (idleWire DecEOF) = inl (e, c', w') /\
    client.connected c' = false /\
    last (client.events w') = Some (client.EvClose 1%nat).
Proof.
  destruct (Start_error_paths agent 1%nat agentWire) as [Hdial _].
  split; [exact Hdial|].
  destruct (Start_error_paths agent 1%nat (idleWire DecEOF)) as [_ Hauth].
  destruct (fst (client.authenticate
                   (config.cli_Token (client.Config agent)) 1%nat
                   (idleWire DecEOF))) as [e|] eqn:He;
    [|vm_compute in He; discriminate He].
  destruct (Hauth e eq_refl) as (c' & w' & Hstart & _ & Hconn & _ & Hlast & _).
  by exists e, c', w'.
Defined.

Lemma dashboard_delete_is_local_witness :
  let w := idleWire DecEOF in
  exists c',
    webtunnels.handleTunnelsDelete connectedAgent "ssh" w = (200, c', w) /\
    config.Tunnels (client.Config c') = [webTunnel; dbTunnel] /\
    "ssh" ∉ map config.Name (config.Tunnels (client.Config c')).
Proof.
  intros w.
  destruct (dashboard_delete_is_local connectedAgent "ssh" w)
    as (c' & Hdel & _ & _ & Hts & _ & _ & Hgone).
  exists c'. split; [exact Hdel|]. split; [by rewrite Hts|].
  apply Hgone. apply (bool_decide_unpack _). vm_compute. reflexivity.
Defined.

End MoreInstances.
